(** * Pipeline-parallel inference forward step
    ([megatron/inference/text_generation/forward_step.py])

    A shallow embedding of the [ForwardStep] class and of the two module
    level helpers [_get_recv_buffer_dtype] and [_allocate_recv_buffer],
    followed by the properties of the scheduler that the specification
    states: the routing decision of [__call__], the micro-batch plan, the
    bookkeeping of the two offsets of the inference context, the shape and
    dtype of the buffers, the order of receive / compute / send, and the
    state left behind when a micro-batch raises.

    Python integers are [Z].  The mutable objects the code shares with its
    surroundings (the inference context, the model, the transport) live in an
    explicit [State] that is threaded through a state-and-exception monad; an
    exception keeps the state reached so far, as a Python exception keeps the
    mutations already made. *)

From Stdlib Require Import String.
From Stdlib Require Import ZArith List Bool Lia.
Import ListNotations.
Local Open Scope Z_scope.

(* ================================================================== *)
(** ** Python values *)

(** The exceptions that can leave the code: the ones the interpreter raises
    on the operations written in the file, and whatever a collaborator
    (model, transport, tensor library) raises. *)
Inductive exn : Type :=
| ZeroDivisionError
| IndexError
| TypeError
| ExternalError (msg : string).

(** [a // b] : floor division, [ZeroDivisionError] on a zero divisor.
    [Z.div] rounds towards minus infinity as Python does. *)
Definition py_floordiv (a b : Z) : exn + Z :=
  if b =? 0 then inl ZeroDivisionError else inr (a / b).

(** [divmod(a, b)]. *)
Definition py_divmod (a b : Z) : exn + (Z * Z) :=
  if b =? 0 then inl ZeroDivisionError else inr (a / b, a mod b).

(** [range(n)] : empty when [n <= 0]. *)
Definition py_range (n : Z) : list Z := map Z.of_nat (seq 0 (Z.to_nat n)).

(** [l[start:stop]] with Python's treatment of negative and out of range
    bounds. *)
Definition py_slice {A : Type} (l : list A) (start stop : Z) : list A :=
  let len := Z.of_nat (length l) in
  let clamp i := if i <? 0 then Z.max 0 (i + len) else Z.min i len in
  let a := clamp start in
  let b := clamp stop in
  firstn (Z.to_nat (b - a)) (skipn (Z.to_nat a) l).

(* ================================================================== *)
(** ** Tensors *)

Inductive DType : Type := float32 | float16 | bfloat16 | float64.

(** [torch.float] is an alias of [torch.float32]. *)
Definition torch_float : DType := float32.

(** The result of [torch.empty(size, dtype=..)]: a region of device memory
    with a shape and a dtype and no defined contents.  The bytes themselves
    belong to the world outside this file. *)
Record Buffer : Type := mkBuffer { buf_shape : list Z; buf_dtype : DType }.

Definition torch_empty (size : list Z) (dtype : DType) : Buffer :=
  mkBuffer size dtype.

Definition torch_numel (b : Buffer) : Z := fold_right Z.mul 1 (buf_shape b).

(** [tokens] and [position_ids]: integer tensors of shape [[b, s]], held as
    the list of their [b] rows together with [s] (so that an empty batch
    still has a sequence length). *)
Record IntTensor : Type := mkIntTensor { rows : list (list Z); ncols : nat }.

(** [t.size(0)] and [t.size(1)]. *)
Definition size0 (t : IntTensor) : Z := Z.of_nat (length (rows t)).
Definition size1 (t : IntTensor) : Z := Z.of_nat (ncols t).

(** [t[start:stop, ...]]. *)
Definition slice_rows (t : IntTensor) (start stop : Z) : IntTensor :=
  mkIntTensor (py_slice (rows t) start stop) (ncols t).

(* ================================================================== *)
(** ** Configuration and shared context *)

(** The fields of [get_args()] that the file reads. *)
Record Args : Type := mkArgs {
  pipeline_model_parallel_size : Z;
  inference_batch_times_seqlen_threshold : Z;
  padded_vocab_size : Z;
  hidden_size : Z;
  fp32_residual_connection : bool;
  params_dtype : DType
}.

(** The two offsets of the inference context. *)
Record InferenceContext : Type := mkContext {
  sequence_len_offset : Z;
  batch_size_offset : Z
}.

(** What this rank does that its surroundings can see, in order. *)
Inductive Event : Type :=
| EvRecv (b : Buffer)
| EvSetInput (b : option Buffer)
| EvForward (tokens position_ids : IntTensor) (seen : InferenceContext)
| EvSend
| EvCopyLogits (start stop : Z)
| EvBatchSizeOffset (v : Z)
| EvSequenceLenOffset (v : Z).

(** The value a model call returns: a tensor or a tuple of tensors. *)
Inductive ModelOutput (Tensor : Type) : Type :=
| OutTensor (t : Tensor)
| OutTuple (ts : list Tensor).
Arguments OutTensor {Tensor} t.
Arguments OutTuple {Tensor} ts.

(** What [__call__] returns when it is not [None]: the model's output
    (unchunked path) or the preallocated logits buffer (chunked path). *)
Inductive Logits (Tensor : Type) : Type :=
| ModelLogits (t : Tensor)
| LogitsBuffer (b : Buffer).
Arguments ModelLogits {Tensor} t.
Arguments LogitsBuffer {Tensor} b.

(** The collaborators the file calls and does not define.  [World] is
    everything they own: model weights and caches, device memory, the state
    of the transport.  The model is handed the inference context object and
    may change it; the transport calls and the slice assignment into the
    logits buffer may raise. *)
Record Collaborators (World Tensor Mask : Type) : Type := mkCollaborators {
  model : IntTensor -> IntTensor -> Mask -> InferenceContext -> World ->
          World * InferenceContext * (exn + ModelOutput Tensor);
  set_input_tensor : option Buffer -> World -> World;
  recv_from_prev_pipeline_rank_ : Buffer -> World -> World * option exn;
  send_to_next_pipeline_rank : Tensor -> World -> World * option exn;
  setitem_rows : Buffer -> Z -> Z -> Tensor -> World -> World * option exn;
  is_pipeline_first_stage : bool;
  is_pipeline_last_stage : bool;
  get_args : Args
}.
Arguments model {World Tensor Mask} c.
Arguments set_input_tensor {World Tensor Mask} c.
Arguments recv_from_prev_pipeline_rank_ {World Tensor Mask} c.
Arguments send_to_next_pipeline_rank {World Tensor Mask} c.
Arguments setitem_rows {World Tensor Mask} c.
Arguments is_pipeline_first_stage {World Tensor Mask} c.
Arguments is_pipeline_last_stage {World Tensor Mask} c.
Arguments get_args {World Tensor Mask} c.

(** The state a call runs in. *)
Record State (World : Type) : Type := mkState {
  world : World;
  inference_context : InferenceContext;
  trace : list Event
}.
Arguments mkState {World} world inference_context trace.
Arguments world {World} s.
Arguments inference_context {World} s.
Arguments trace {World} s.

(* ================================================================== *)
(** ** State and exception monad *)

Definition M (World A : Type) : Type := State World -> State World * (exn + A).

Definition ret {World A : Type} (a : A) : M World A := fun s => (s, inr a).

Definition raise {World A : Type} (e : exn) : M World A := fun s => (s, inl e).

Definition bind {World A B : Type} (m : M World A) (k : A -> M World B)
  : M World B :=
  fun s => match m s with
           | (s', inl e) => (s', inl e)
           | (s', inr a) => k a s'
           end.

Notation "x <- m ;; k" := (bind m (fun x => k))
  (at level 61, m at next level, right associativity).
Notation "m ;;; k" := (bind m (fun _ => k))
  (at level 61, right associativity).

Definition lift_result {World A : Type} (r : exn + A) : M World A :=
  match r with inl e => raise e | inr a => ret a end.

Definition when {World : Type} (b : bool) (m : M World unit) : M World unit :=
  if b then m else ret tt.

(** [for x in l: acc = body(x, acc)]. *)
Fixpoint for_each {World X S : Type} (body : X -> S -> M World S)
  (l : list X) (acc : S) : M World S :=
  match l with
  | [] => ret acc
  | x :: l' => acc' <- body x acc ;; for_each body l' acc'
  end.

Definition log {World : Type} (ev : Event) : M World unit :=
  fun s => (mkState (world s) (inference_context s) (trace s ++ [ev]), inr tt).

(** A call of a collaborator that acts on the world and may raise. *)
Definition effect {World : Type} (f : World -> World * option exn)
  : M World unit :=
  fun s => let '(w, r) := f (world s) in
           (mkState w (inference_context s) (trace s),
            match r with Some e => inl e | None => inr tt end).

(** [self.inference_context.sequence_len_offset += n]. *)
Definition add_sequence_len_offset {World : Type} (n : Z) : M World unit :=
  fun s => let c := inference_context s in
           let v := sequence_len_offset c + n in
           (mkState (world s) (mkContext v (batch_size_offset c))
                    (trace s ++ [EvSequenceLenOffset v]), inr tt).

(** [self.inference_context.batch_size_offset += n]. *)
Definition add_batch_size_offset {World : Type} (n : Z) : M World unit :=
  fun s => let c := inference_context s in
           let v := batch_size_offset c + n in
           (mkState (world s) (mkContext (sequence_len_offset c) v)
                    (trace s ++ [EvBatchSizeOffset v]), inr tt).

(** [self.inference_context.batch_size_offset = v]. *)
Definition set_batch_size_offset {World : Type} (v : Z) : M World unit :=
  fun s => let c := inference_context s in
           (mkState (world s) (mkContext (sequence_len_offset c) v)
                    (trace s ++ [EvBatchSizeOffset v]), inr tt).

(* ================================================================== *)
(** ** The module level helpers *)

(** [_get_recv_buffer_dtype(args)]. *)
Definition _get_recv_buffer_dtype (args : Args) : DType :=
  if fp32_residual_connection args then torch_float else params_dtype args.

(** [_allocate_recv_buffer(batch_size, sequence_length)]; the two global
    queries it makes are its first two arguments. *)
Definition _allocate_recv_buffer (first_stage : bool) (args : Args)
  (batch_size sequence_length : Z) : option Buffer :=
  if first_stage then None
  else
    let recv_size := [sequence_length; batch_size; hidden_size args] in
    Some (torch_empty recv_size (_get_recv_buffer_dtype args)).

(* ================================================================== *)
(** ** The class [ForwardStep] *)

(** The attributes [__init__] computes from the arguments.  The model and
    the inference context it also stores are in [Collaborators] and in
    [State]. *)
Record ForwardStep : Type := mkForwardStep {
  pipeline_size_larger_than_one : bool;
  pipelining_batch_x_seqlen : Z
}.

Definition __init__ (args : Args) : ForwardStep :=
  mkForwardStep (1 <? pipeline_model_parallel_size args)
                (inference_batch_times_seqlen_threshold args).

(** The decision at the head of [__call__]: chunk with a micro-batch size,
    or run the batch as one step. *)
Inductive Route : Type :=
| Chunked (micro_batch_size : Z)
| Unchunked.

Definition override_or (recv_buffer_seq_length : option Z) (dflt : Z) : Z :=
  match recv_buffer_seq_length with None => dflt | Some n => n end.

Definition route (self : ForwardStep) (tokens : IntTensor)
  (recv_buffer_seq_length : option Z) : exn + Route :=
  if pipeline_size_larger_than_one self
     && negb (pipelining_batch_x_seqlen self =? -1)
  then
    let seq_len := override_or recv_buffer_seq_length (size1 tokens) in
    let current_batch_x_seqlen := size0 tokens * seq_len in
    if pipelining_batch_x_seqlen self <=? current_batch_x_seqlen then
      match py_floordiv (pipelining_batch_x_seqlen self) seq_len with
      | inl e => inl e
      | inr q => inr (Chunked (Z.max 1 q))
      end
    else inr Unchunked
  else inr Unchunked.

(** Number of micro-batches, as computed from [divmod]. *)
Definition num_micro_batches (batch_size micro_batch_size : Z) : exn + Z :=
  match py_divmod batch_size micro_batch_size with
  | inl e => inl e
  | inr (n, last_chunk) => inr (if 0 <? last_chunk then n + 1 else n)
  end.

(** The bounds the loop computes for one index. *)
Definition micro_batch_bounds (batch_size micro_batch_size : Z)
  (micro_batch_index : Z) : Z * Z :=
  let start := micro_batch_index * micro_batch_size in
  let stop := Z.min (start + micro_batch_size) batch_size in
  (start, stop).

(** The list of the [(start, end)] pairs of a whole loop. *)
Definition micro_batch_plan (batch_size micro_batch_size : Z) : list (Z * Z) :=
  match num_micro_batches batch_size micro_batch_size with
  | inl _ => []
  | inr n => map (micro_batch_bounds batch_size micro_batch_size) (py_range n)
  end.

Section Methods.

Context {World Tensor Mask : Type}.
Variable E : Collaborators World Tensor Mask.

(** [self._forward]: the model is called on the shared context. *)
Definition _forward (tokens position_ids : IntTensor) (attention_mask : Mask)
  : M World (ModelOutput Tensor) :=
  fun s =>
    let c := inference_context s in
    let '(w, c', r) := model E tokens position_ids attention_mask c (world s) in
    (mkState w c' (trace s ++ [EvForward tokens position_ids c]), r).

Definition _forward_step_helper (self : ForwardStep)
  (tokens position_ids : IntTensor) (attention_mask : Mask)
  (recv_buffer : option Buffer) : M World Tensor :=
  let batch_size := size0 tokens in
  let sequence_length := size1 tokens in
  let recv_buffer :=
    match recv_buffer with
    | None => _allocate_recv_buffer (is_pipeline_first_stage E) (get_args E)
                                    batch_size sequence_length
    | Some b => Some b
    end in
  (* Receive from previous stage. *)
  match recv_buffer with
  | Some b => when (0 <? torch_numel b)
                (log (EvRecv b) ;;;
                 effect (recv_from_prev_pipeline_rank_ E b))
  | None => ret tt
  end ;;;
  (* Forward pass through the model. *)
  when (negb (is_pipeline_first_stage E))
    (log (EvSetInput recv_buffer) ;;;
     effect (fun w => (set_input_tensor E recv_buffer w, None))) ;;;
  output_tensor <- _forward tokens position_ids attention_mask ;;
  output_tensor <-
    match output_tensor with
    | OutTensor t => ret t
    | OutTuple [] => raise IndexError
    | OutTuple (t :: _) => ret t
    end ;;
  (* Send output to the next stage. *)
  log EvSend ;;;
  effect (send_to_next_pipeline_rank E output_tensor) ;;;
  ret output_tensor.

Definition _no_pipelining_forward_step (self : ForwardStep)
  (tokens position_ids : IntTensor) (attention_mask : Mask)
  (recv_buffer : option Buffer) : M World (option (Logits Tensor)) :=
  output_tensor <- _forward_step_helper self tokens position_ids
                     attention_mask recv_buffer ;;
  add_sequence_len_offset (size1 tokens) ;;;
  ret (if is_pipeline_last_stage E then Some (ModelLogits output_tensor)
       else None).

(** The logits buffer preallocated by the chunked path. *)
Definition preallocate_logits (batch_size sequence_length : Z)
  : option Buffer :=
  if is_pipeline_last_stage E then
    Some (torch_empty
            [batch_size; sequence_length; padded_vocab_size (get_args E)]
            float32)
  else None.

(** One turn of the loop of [_with_pipelining_forward_step]; the loop
    carries [recv_buffer], which a short micro-batch rebinds to [None]. *)
Definition micro_batch_step (self : ForwardStep)
  (tokens position_ids : IntTensor) (attention_mask : Mask)
  (micro_batch_size : Z) (logits : option Buffer)
  (micro_batch_index : Z) (recv_buffer : option Buffer)
  : M World (option Buffer) :=
  let batch_size := size0 tokens in
  let '(start, stop) :=
    micro_batch_bounds batch_size micro_batch_size micro_batch_index in
  let this_micro_batch_size := stop - start in
  let tokens2use := slice_rows tokens start stop in
  let position_ids2use := slice_rows position_ids start stop in
  let recv_buffer :=
    if negb (this_micro_batch_size =? micro_batch_size) then None
    else recv_buffer in
  output <- _forward_step_helper self tokens2use position_ids2use
              attention_mask recv_buffer ;;
  add_batch_size_offset this_micro_batch_size ;;;
  when (is_pipeline_last_stage E)
    (match logits with
     | None => raise TypeError
     | Some lb => log (EvCopyLogits start stop) ;;;
                  effect (setitem_rows E lb start stop output)
     end) ;;;
  ret recv_buffer.

Definition micro_batch_loop (self : ForwardStep)
  (tokens position_ids : IntTensor) (attention_mask : Mask)
  (micro_batch_size : Z) (logits : option Buffer)
  (indices : list Z) (recv_buffer : option Buffer) : M World (option Buffer) :=
  for_each (micro_batch_step self tokens position_ids attention_mask
              micro_batch_size logits) indices recv_buffer.

Definition _with_pipelining_forward_step (self : ForwardStep)
  (tokens position_ids : IntTensor) (attention_mask : Mask)
  (micro_batch_size : Z) (recv_buffer_seq_length : option Z)
  : M World (option (Logits Tensor)) :=
  let batch_size := size0 tokens in
  let sequence_length := override_or recv_buffer_seq_length (size1 tokens) in
  n <- lift_result (num_micro_batches batch_size micro_batch_size) ;;
  let logits := preallocate_logits batch_size sequence_length in
  let recv_buffer :=
    _allocate_recv_buffer (is_pipeline_first_stage E) (get_args E)
                          micro_batch_size sequence_length in
  micro_batch_loop self tokens position_ids attention_mask micro_batch_size
                   logits (py_range n) recv_buffer ;;;
  add_sequence_len_offset (size1 tokens) ;;;
  set_batch_size_offset 0 ;;;
  ret (option_map LogitsBuffer logits).

Definition __call__ (self : ForwardStep)
  (tokens position_ids : IntTensor) (attention_mask : Mask)
  (recv_buffer_seq_length : option Z) : M World (option (Logits Tensor)) :=
  r <- lift_result (route self tokens recv_buffer_seq_length) ;;
  match r with
  | Chunked micro_batch_size =>
      _with_pipelining_forward_step self tokens position_ids attention_mask
                                    micro_batch_size recv_buffer_seq_length
  | Unchunked =>
      let recv_buffer :=
        match recv_buffer_seq_length with
        | None => None
        | Some n => _allocate_recv_buffer (is_pipeline_first_stage E)
                                          (get_args E) (size0 tokens) n
        end in
      _no_pipelining_forward_step self tokens position_ids attention_mask
                                  recv_buffer
  end.

End Methods.

(* ================================================================== *)
(** ** Vocabulary of the statements *)

(** The model leaves a field of the inference context as it found it,
    whether it returns or raises.  The specification's resource policy
    reserves the writes of the two offsets to the scheduler; the statements
    about offsets are made for models that respect it. *)
Definition model_keeps {World Tensor Mask : Type}
  (E : Collaborators World Tensor Mask) (field : InferenceContext -> Z)
  : Prop :=
  forall tokens position_ids mask c w,
    field (snd (fst (model E tokens position_ids mask c w))) = field c.

(** A computation leaves a field of the inference context unchanged on
    every outcome. *)
Definition field_stable {World A : Type} (field : InferenceContext -> Z)
  (m : M World A) : Prop :=
  forall s s' r, m s = (s', r) ->
    field (inference_context s') = field (inference_context s).

(** A computation that returns has appended exactly [evs] to the trace and
    has left the inference context as it was. *)
Definition appends {World A : Type} (m : M World A) (evs : list Event)
  : Prop :=
  forall s s' a, m s = (s', inr a) ->
    trace s' = trace s ++ evs /\ inference_context s' = inference_context s.

(** The model treats both offsets as read-only. *)
Definition offsets_read_only {World Tensor Mask : Type}
  (E : Collaborators World Tensor Mask) : Prop :=
  model_keeps E sequence_len_offset /\ model_keeps E batch_size_offset.

(** The writes of the two offsets, as they show in the trace. *)
Definition is_sequence_len_write (ev : Event) : bool :=
  match ev with EvSequenceLenOffset _ => true | _ => false end.

Definition is_batch_size_write (ev : Event) : bool :=
  match ev with EvBatchSizeOffset _ => true | _ => false end.

(** Whatever its outcome, a computation has only added to the trace, and
    nothing of the kind [w]. *)
Definition silent {World A : Type} (w : Event -> bool) (m : M World A)
  : Prop :=
  forall s s' r, m s = (s', r) ->
    exists evs, trace s' = trace s ++ evs /\ filter w evs = [].

(** A computation returns from every state. *)
Definition returns {World A : Type} (m : M World A) : Prop :=
  forall s, exists s' a, m s = (s', inr a).

(** No collaborator raises: the model answers with a tensor or a tuple that
    has a first element, the transport and the copy into the logits buffer
    succeed. *)
Definition collaborators_return {World Tensor Mask : Type}
  (E : Collaborators World Tensor Mask) : Prop :=
  (forall tokens position_ids mask c w,
      exists out, snd (model E tokens position_ids mask c w) = inr out
                  /\ out <> OutTuple [])
  /\ (forall b w, snd (recv_from_prev_pipeline_rank_ E b w) = None)
  /\ (forall t w, snd (send_to_next_pipeline_rank E t w) = None)
  /\ (forall lb start stop t w, snd (setitem_rows E lb start stop t w) = None).

(** Size of a range of the plan. *)
Definition range_size (r : Z * Z) : Z := snd r - fst r.

Definition sum_sizes (plan : list (Z * Z)) : Z :=
  fold_right Z.add 0 (map range_size plan).

(** The events of one forward step that runs to its end: the receive (on a
    stage that has a predecessor and for a buffer that is not empty), the
    hand-over of the buffer to the model, the model call with the context it
    sees, the send. *)
Definition helper_events (first_stage : bool) (args : Args)
  (tokens position_ids : IntTensor) (recv_buffer : option Buffer)
  (seen : InferenceContext) : list Event :=
  let rb :=
    match recv_buffer with
    | None => _allocate_recv_buffer first_stage args
                (size0 tokens) (size1 tokens)
    | Some b => Some b
    end in
  match rb with
  | Some b => if 0 <? torch_numel b then [EvRecv b] else []
  | None => []
  end
  ++ (if first_stage then [] else [EvSetInput rb])
  ++ [EvForward tokens position_ids seen; EvSend].

(** The events of the micro-batch covering [[start, stop)] of a chunked
    call entered with context [entry]: the forward step on the slice, seen
    with the batch offset moved to [start]; the write that moves the batch
    offset to [stop]; on the last stage the copy into the logits buffer. *)
Definition micro_batch_events (first_stage last_stage : bool) (args : Args)
  (tokens position_ids : IntTensor) (micro_batch_size sequence_length : Z)
  (entry : InferenceContext) (range : Z * Z) : list Event :=
  let '(start, stop) := range in
  let recv_buffer :=
    if stop - start =? micro_batch_size
    then _allocate_recv_buffer first_stage args micro_batch_size sequence_length
    else None in
  helper_events first_stage args
    (slice_rows tokens start stop) (slice_rows position_ids start stop)
    recv_buffer
    (mkContext (sequence_len_offset entry) (batch_size_offset entry + start))
  ++ [EvBatchSizeOffset (batch_size_offset entry + stop)]
  ++ (if last_stage then [EvCopyLogits start stop] else []).

(* ================================================================== *)
(** ** A concrete rank, for running the definitions *)

Module Demo.

(** Threshold 12 on a pipeline of two stages. *)
Definition args : Args := mkArgs 2 12 32 8 false float16.

(** A model that counts its calls in the world, answers with the number of
    rows it was given and raises when it sees batch offset [fail_at]. *)
Definition demo_model (fail_at : option Z)
  (tokens position_ids : IntTensor) (mask : unit) (c : InferenceContext)
  (w : nat) : nat * InferenceContext * (exn + ModelOutput Z) :=
  (S w, c,
   match fail_at with
   | Some b => if batch_size_offset c =? b
               then inl (ExternalError "model failure"%string)
               else inr (OutTensor (size0 tokens))
   | None => inr (OutTensor (size0 tokens))
   end).

Definition rank (first_stage last_stage : bool) (a : Args)
  (fail_at : option Z) : Collaborators nat Z unit :=
  mkCollaborators nat Z unit
    (demo_model fail_at)
    (fun _ w => w)
    (fun _ w => (w, None))
    (fun _ w => (w, None))
    (fun _ _ _ _ w => (w, None))
    first_stage last_stage a.

(** Ten sequences of three tokens. *)
Definition tokens : IntTensor :=
  mkIntTensor (map (fun i => [i; i + 1; i + 2]) (py_range 10)) 3.

Definition position_ids : IntTensor :=
  mkIntTensor (map (fun _ => [0; 1; 2]) (py_range 10)) 3.

(** One sequence of no token. *)
Definition empty_sequence : IntTensor := mkIntTensor [[]] 0.

Definition start_state : State nat := mkState 0%nat (mkContext 0 0) [].

End Demo.

(* ================================================================== *)
(** ** Integer facts about the plan *)

Lemma in_py_range (n k : Z) : In k (py_range n) <-> 0 <= k < n.
Proof.
  unfold py_range. rewrite in_map_iff. split.
  - intros [i [<- Hi]]. apply in_seq in Hi. lia.
  - intros Hk. exists (Z.to_nat k). split; [lia|]. apply in_seq. lia.
Qed.

Lemma nth_error_py_range (n : Z) (i : nat) (k : Z) :
  nth_error (py_range n) i = Some k -> k = Z.of_nat i /\ Z.of_nat i < n.
Proof.
  unfold py_range. intros H.
  rewrite nth_error_map in H.
  destruct (nth_error (seq 0 (Z.to_nat n)) i) as [j|] eqn:Hj; [|discriminate].
  injection H as <-.
  assert (Hlen : (i < length (seq 0 (Z.to_nat n)))%nat)
    by (apply nth_error_Some; congruence).
  rewrite length_seq in Hlen.
  rewrite nth_error_nth' with (d := 0%nat) in Hj
    by (rewrite length_seq; exact Hlen).
  rewrite seq_nth in Hj by exact Hlen.
  injection Hj as <-. lia.
Qed.

Lemma py_range_split (n k : Z) :
  0 <= k < n ->
  py_range n =
  py_range k ++
  k :: map Z.of_nat (seq (S (Z.to_nat k)) (Z.to_nat (n - k - 1))).
Proof.
  intros Hk. unfold py_range.
  replace (Z.to_nat n) with (Z.to_nat k + S (Z.to_nat (n - k - 1)))%nat by lia.
  rewrite seq_app, map_app. simpl. f_equal. f_equal. lia.
Qed.

(** With a positive micro-batch size the number of micro-batches is the
    least [n] with [batch_size <= n * micro_batch_size]. *)
Lemma num_micro_batches_least (B Mb n : Z) :
  1 <= Mb -> 0 <= B ->
  num_micro_batches B Mb = inr n ->
  0 <= n /\ B <= n * Mb /\ (forall j, 0 <= j < n -> j * Mb < B).
Proof.
  intros HM HB. unfold num_micro_batches, py_divmod.
  destruct (Mb =? 0) eqn:E0; [lia|].
  pose proof (Z.div_mod B Mb ltac:(lia)) as Hdm.
  pose proof (Z.mod_pos_bound B Mb ltac:(lia)) as Hr.
  assert (Hq : 0 <= B / Mb) by (apply Z.div_pos; lia).
  destruct (0 <? B mod Mb) eqn:Er; intros H; injection H as <-.
  - apply Z.ltb_lt in Er.
    split; [lia | split; [nia | intros j Hj; assert (j <= B / Mb) by lia; nia]].
  - apply Z.ltb_ge in Er. assert (B mod Mb = 0) by lia.
    split; [lia | split; [nia | intros j Hj; nia]].
Qed.

Lemma num_micro_batches_defined (B Mb : Z) :
  1 <= Mb -> exists n, num_micro_batches B Mb = inr n.
Proof.
  intros HM. unfold num_micro_batches, py_divmod.
  destruct (Mb =? 0) eqn:E0; [lia|]. eexists; reflexivity.
Qed.

(** Inside the loop every micro-batch starts where the previous one ended:
    its bounds are [min (k*M) B] and [min ((k+1)*M) B]. *)
Lemma micro_batch_bounds_min (B Mb n k : Z) :
  1 <= Mb -> 0 <= B -> num_micro_batches B Mb = inr n -> 0 <= k < n ->
  micro_batch_bounds B Mb k = (Z.min (k * Mb) B, Z.min ((k + 1) * Mb) B)
  /\ k * Mb < B.
Proof.
  intros HM HB Hn Hk.
  destruct (num_micro_batches_least B Mb n HM HB Hn) as (_ & _ & Hlt).
  specialize (Hlt k Hk). unfold micro_batch_bounds. split; [|exact Hlt].
  f_equal; [lia|]. f_equal. lia.
Qed.


(* ================================================================== *)
(** ** Reasoning about monadic code *)

Section MonadFacts.

Context {World : Type}.

Lemma bind_inr {A B : Type} (m : M World A) (k : A -> M World B) s s' b :
  bind m k s = (s', inr b) ->
  exists s1 a, m s = (s1, inr a) /\ k a s1 = (s', inr b).
Proof.
  unfold bind. destruct (m s) as [s1 [e|a]]; intros H.
  - discriminate.
  - exists s1, a. split; [reflexivity | exact H].
Qed.


Lemma bind_run_inr {A B : Type} (m : M World A) (k : A -> M World B) s s1 a :
  m s = (s1, inr a) -> bind m k s = k a s1.
Proof. unfold bind. intros ->. reflexivity. Qed.

Lemma bind_run_inl {A B : Type} (m : M World A) (k : A -> M World B) s s1 e :
  m s = (s1, inl e) -> bind m k s = (s1, inl e).
Proof. unfold bind. intros ->. reflexivity. Qed.

Lemma for_each_app {X S : Type} (body : X -> S -> M World S) l1 l2 acc s :
  for_each body (l1 ++ l2) acc s =
  bind (for_each body l1 acc) (for_each body l2) s.
Proof.
  revert acc s. induction l1 as [|x l1 IH]; intros acc s.
  - reflexivity.
  - simpl. unfold bind.
    destruct (body x acc s) as [s1 [e|acc1]]; [reflexivity|].
    rewrite IH. reflexivity.
Qed.

End MonadFacts.

(* ================================================================== *)
(** ** Which code leaves which offset alone *)

Section StabilityFacts.

Context {World : Type}.
Variable field : InferenceContext -> Z.

Lemma stable_ret {A : Type} (a : A) :
  field_stable field (ret (World := World) a).
Proof. intros s s' r H. injection H as <- _. reflexivity. Qed.

Lemma stable_raise {A : Type} (e : exn) :
  field_stable field (raise (World := World) (A := A) e).
Proof. intros s s' r H. injection H as <- _. reflexivity. Qed.

Lemma stable_bind {A B : Type} (m : M World A) (k : A -> M World B) :
  field_stable field m -> (forall a, field_stable field (k a)) ->
  field_stable field (bind m k).
Proof.
  intros Hm Hk s s' r H. unfold bind in H.
  destruct (m s) as [s1 [e|a]] eqn:Em.
  - injection H as <- _. exact (Hm _ _ _ Em).
  - rewrite (Hk a _ _ _ H). exact (Hm _ _ _ Em).
Qed.

Lemma stable_log (ev : Event) : field_stable field (log (World := World) ev).
Proof. intros s s' r H. injection H as <- _. reflexivity. Qed.

Lemma stable_effect (f : World -> World * option exn) :
  field_stable field (effect f).
Proof.
  intros s s' r H. unfold effect in H. destruct (f (world s)) as [w o].
  injection H as <- _. reflexivity.
Qed.

Lemma stable_when (b : bool) (m : M World unit) :
  field_stable field m -> field_stable field (when b m).
Proof. intros Hm. destruct b; [exact Hm | apply stable_ret]. Qed.

Lemma stable_lift_result {A : Type} (r : exn + A) :
  field_stable field (lift_result (World := World) r).
Proof. destruct r; [apply stable_raise | apply stable_ret]. Qed.

Lemma stable_for_each {X S : Type} (body : X -> S -> M World S) l acc :
  (forall x a, field_stable field (body x a)) ->
  field_stable field (for_each body l acc).
Proof.
  intros Hb. revert acc. induction l as [|x l IH]; intros acc; simpl.
  - apply stable_ret.
  - apply stable_bind; [apply Hb | exact IH].
Qed.

End StabilityFacts.

Lemma add_sequence_len_offset_keeps_batch {World : Type} (n : Z) :
  field_stable batch_size_offset (add_sequence_len_offset (World := World) n).
Proof. intros s s' r H. injection H as <- _. reflexivity. Qed.

Lemma add_batch_size_offset_keeps_sequence {World : Type} (n : Z) :
  field_stable sequence_len_offset (add_batch_size_offset (World := World) n).
Proof. intros s s' r H. injection H as <- _. reflexivity. Qed.

Ltac stable_step :=
  first [ apply stable_ret | apply stable_raise | apply stable_log
        | apply stable_effect | apply stable_lift_result
        | apply stable_when | apply stable_bind; [|intros ?] ].

Section HelperFacts.

Context {World Tensor Mask : Type}.
Variable E : Collaborators World Tensor Mask.

Lemma stable_forward field tokens position_ids mask :
  model_keeps E field ->
  field_stable field (_forward E tokens position_ids mask).
Proof.
  intros Hk s s' r H. unfold _forward in H.
  specialize (Hk tokens position_ids mask (inference_context s) (world s)).
  destruct (model E tokens position_ids mask (inference_context s) (world s))
    as [[w c'] r'].
  injection H as <- _. exact Hk.
Qed.

(** A forward step changes a field of the context only if the model does. *)
Lemma stable_helper field self tokens position_ids mask recv_buffer :
  model_keeps E field ->
  field_stable field
    (_forward_step_helper E self tokens position_ids mask recv_buffer).
Proof.
  intros Hk. unfold _forward_step_helper.
  apply stable_bind; [|intros ?].
  { destruct (match recv_buffer with
              | Some b => Some b
              | None => _ end); repeat stable_step. }
  apply stable_bind; [repeat stable_step | intros ?].
  apply stable_bind; [apply stable_forward; exact Hk | intros out].
  apply stable_bind; [| intros ?; repeat stable_step].
  destruct out as [t|[|t ts]]; stable_step.
Qed.

End HelperFacts.

(* ================================================================== *)
(** ** The trace of a forward step *)

Section TraceFacts.

Context {World : Type}.

Lemma appends_ret {A : Type} (a : A) : appends (ret (World := World) a) [].
Proof.
  intros s s' r H. injection H as <- _. rewrite app_nil_r. split; reflexivity.
Qed.

Lemma appends_log (ev : Event) : appends (log (World := World) ev) [ev].
Proof. intros s s' r H. injection H as <- _. split; reflexivity. Qed.

Lemma appends_effect (f : World -> World * option exn) : appends (effect f) [].
Proof.
  intros s s' r H. unfold effect in H. destruct (f (world s)) as [w o].
  injection H as <- _. simpl. rewrite app_nil_r. split; reflexivity.
Qed.

Lemma appends_bind {A B : Type} (m : M World A) (k : A -> M World B) e1 e2 :
  appends m e1 -> (forall a, appends (k a) e2) -> appends (bind m k) (e1 ++ e2).
Proof.
  intros Hm Hk s s' b H.
  apply bind_inr in H as (s1 & a & H1 & H2).
  destruct (Hm _ _ _ H1) as [T1 C1]. destruct (Hk a _ _ _ H2) as [T2 C2].
  rewrite T2, T1, C2, C1, app_assoc. split; reflexivity.
Qed.

Lemma appends_when (b : bool) (m : M World unit) evs :
  appends m evs -> appends (when b m) (if b then evs else []).
Proof. intros Hm. destruct b; [exact Hm | apply appends_ret]. Qed.

End TraceFacts.

Section HelperTrace.

Context {World Tensor Mask : Type}.
Variable E : Collaborators World Tensor Mask.

(** Receive, then compute, then send: the events of a forward step that
    returns, in the order they happened. *)
Lemma helper_returns self tokens position_ids mask recv_buffer s s' out :
  _forward_step_helper E self tokens position_ids mask recv_buffer s
  = (s', inr out) ->
  trace s' =
  trace s ++ helper_events (is_pipeline_first_stage E) (get_args E)
               tokens position_ids recv_buffer (inference_context s).
Proof.
  unfold _forward_step_helper, helper_events.
  set (rb := match recv_buffer with
             | Some b => Some b
             | None => _ end).
  intros H.
  apply bind_inr in H as (s1 & u1 & H1 & H).
  apply bind_inr in H as (s2 & u2 & H2 & H).
  apply bind_inr in H as (s3 & o & H3 & H).
  apply bind_inr in H as (s4 & t & H4 & H).
  apply bind_inr in H as (s5 & u5 & H5 & H).
  apply bind_inr in H as (s6 & u6 & H6 & H).
  injection H as <- _.
  assert (A1 : trace s1 = trace s ++
                 match rb with
                 | Some b => if 0 <? torch_numel b then [EvRecv b] else []
                 | None => []
                 end
               /\ inference_context s1 = inference_context s).
  { destruct rb as [b|].
    - refine (appends_when _ _ [EvRecv b] _ _ _ _ H1).
      apply (appends_bind _ _ [EvRecv b] []);
        [apply appends_log | intros; apply appends_effect].
    - apply (appends_ret tt _ _ _ H1). }
  assert (A2 : trace s2 = trace s1 ++
                 (if is_pipeline_first_stage E then [] else [EvSetInput rb])
               /\ inference_context s2 = inference_context s1).
  { pose proof (appends_when (negb (is_pipeline_first_stage E)) _
                  [EvSetInput rb]
                  (appends_bind _ _ [EvSetInput rb] [] (appends_log _)
                     (fun _ => appends_effect _)) _ _ _ H2) as A.
    destruct (is_pipeline_first_stage E); exact A. }
  assert (A3 : trace s3 = trace s2 ++
                 [EvForward tokens position_ids (inference_context s2)]).
  { unfold _forward in H3.
    destruct (model E tokens position_ids mask (inference_context s2) (world s2))
      as [[w c'] r'].
    injection H3 as <- _. reflexivity. }
  assert (A4 : s4 = s3).
  { destruct o as [t0|[|t0 ts]]; try discriminate; injection H4 as <- _;
      reflexivity. }
  destruct (appends_log _ _ _ _ H5) as [A5 _].
  destruct (appends_effect _ _ _ _ H6) as [A6 _].
  destruct A1 as [A1 C1]. destruct A2 as [A2 C2].
  rewrite A6, A5, A4, A3, A2, A1, C2, C1.
  rewrite app_nil_r. repeat rewrite <- app_assoc. reflexivity.
Qed.

End HelperTrace.

(* ================================================================== *)
(** ** The loop over the micro-batches *)

Section LoopFacts.

Context {World Tensor Mask : Type}.
Variable E : Collaborators World Tensor Mask.
Hypothesis keeps_seq : model_keeps E sequence_len_offset.
Hypothesis keeps_batch : model_keeps E batch_size_offset.

Variable self : ForwardStep.
Variables tokens position_ids : IntTensor.
Variable mask : Mask.
Variable Mb : Z.
Variable logits : option Buffer.

(** One turn that returns: the forward step on the slice, then the batch
    offset moves by the size of the slice, then the copy of the logits. *)
Lemma step_returns k rb s s' rb' :
  micro_batch_step E self tokens position_ids mask Mb logits k rb s
  = (s', inr rb') ->
  let start := fst (micro_batch_bounds (size0 tokens) Mb k) in
  let stop := snd (micro_batch_bounds (size0 tokens) Mb k) in
  let used := if negb (stop - start =? Mb) then None else rb in
  rb' = used
  /\ inference_context s' =
     mkContext (sequence_len_offset (inference_context s))
               (batch_size_offset (inference_context s) + (stop - start))
  /\ trace s' =
     trace s
     ++ helper_events (is_pipeline_first_stage E) (get_args E)
          (slice_rows tokens start stop) (slice_rows position_ids start stop)
          used (inference_context s)
     ++ [EvBatchSizeOffset
           (batch_size_offset (inference_context s) + (stop - start))]
     ++ (if is_pipeline_last_stage E then [EvCopyLogits start stop] else []).
Proof.
  unfold micro_batch_step.
  destruct (micro_batch_bounds (size0 tokens) Mb k) as [start stop]. simpl.
  set (used := if negb (stop - start =? Mb) then None else rb).
  intros H.
  apply bind_inr in H as (s1 & out & H1 & H).
  apply bind_inr in H as (s2 & u2 & H2 & H).
  apply bind_inr in H as (s3 & u3 & H3 & H).
  injection H as <- <-.
  pose proof (helper_returns E _ _ _ _ _ _ _ _ H1) as T1.
  pose proof (stable_helper E _ self _ _ mask used keeps_seq _ _ _ H1) as Q1.
  pose proof (stable_helper E _ self _ _ mask used keeps_batch _ _ _ H1) as B1.
  unfold add_batch_size_offset in H2. injection H2 as <-.
  assert (A3 : trace s3 =
               trace s1 ++ [EvBatchSizeOffset
                              (batch_size_offset (inference_context s1)
                               + (stop - start))]
               ++ (if is_pipeline_last_stage E
                   then [EvCopyLogits start stop] else [])
               /\ inference_context s3 =
                  mkContext (sequence_len_offset (inference_context s1))
                            (batch_size_offset (inference_context s1)
                             + (stop - start))).
  { destruct (is_pipeline_last_stage E); simpl in H3.
    - destruct logits as [lb|]; [|discriminate].
      destruct (appends_bind _ _ [EvCopyLogits start stop] []
                  (appends_log _) (fun _ => appends_effect _) _ _ _ H3)
        as [T C].
      rewrite T, C. simpl. rewrite <- app_assoc. split; reflexivity.
    - injection H3 as <-. simpl. split; reflexivity. }
  destruct A3 as [T3 C3].
  split; [reflexivity|]. split.
  - rewrite C3, Q1, B1. reflexivity.
  - rewrite T3, T1, B1. rewrite <- app_assoc. reflexivity.
Qed.

(** A turn whose forward step raises stops there, in the state the forward
    step left. *)
Lemma step_raises k rb s s' e :
  let start := fst (micro_batch_bounds (size0 tokens) Mb k) in
  let stop := snd (micro_batch_bounds (size0 tokens) Mb k) in
  let used := if negb (stop - start =? Mb) then None else rb in
  _forward_step_helper E self (slice_rows tokens start stop)
    (slice_rows position_ids start stop) mask used s = (s', inl e) ->
  micro_batch_step E self tokens position_ids mask Mb logits k rb s
  = (s', inl e).
Proof.
  unfold micro_batch_step.
  destruct (micro_batch_bounds (size0 tokens) Mb k) as [start stop]. simpl.
  intros H. apply bind_run_inl. exact H.
Qed.

Variable S_len : Z.
Variable num : Z.
Hypothesis Mb_pos : 1 <= Mb.
Hypothesis num_eq : num_micro_batches (size0 tokens) Mb = inr num.

Let prealloc : option Buffer :=
  _allocate_recv_buffer (is_pipeline_first_stage E) (get_args E) Mb S_len.

(** Turns [a], [a+1], .., [a+n-1] of the loop, entered with the reusable
    buffer and with the batch offset at the start of micro-batch [a]. *)
Lemma loop_returns q0 b0 n :
  forall a s s' rb',
  Z.of_nat (a + n) <= num ->
  inference_context s = mkContext q0 (b0 + Z.min (Z.of_nat a * Mb) (size0 tokens)) ->
  micro_batch_loop E self tokens position_ids mask Mb logits
    (map Z.of_nat (seq a n)) prealloc s = (s', inr rb') ->
  inference_context s' =
    mkContext q0 (b0 + Z.min (Z.of_nat (a + n) * Mb) (size0 tokens))
  /\ trace s' =
     trace s ++
     flat_map (micro_batch_events (is_pipeline_first_stage E)
                 (is_pipeline_last_stage E) (get_args E) tokens position_ids
                 Mb S_len (mkContext q0 b0))
              (map (micro_batch_bounds (size0 tokens) Mb)
                   (map Z.of_nat (seq a n)))
  /\ (Z.of_nat (a + n) < num -> rb' = prealloc).
Proof.
  assert (HB : 0 <= size0 tokens) by (unfold size0; lia).
  destruct (num_micro_batches_least _ _ _ Mb_pos HB num_eq)
    as (Hn0 & Hcover & Hleast).
  unfold micro_batch_loop.
  induction n as [|n IH]; intros a s s' rb' Hle Hctx H.
  - simpl in H. injection H as <- <-. simpl.
    rewrite app_nil_r, Nat.add_0_r. auto.
  - simpl in H. apply bind_inr in H as (s1 & rb1 & H1 & H).
    apply step_returns in H1. cbv zeta in H1.
    destruct (micro_batch_bounds_min _ _ _ (Z.of_nat a) Mb_pos HB num_eq
                ltac:(lia)) as [Hb Hlt].
    rewrite Hb in H1. simpl fst in H1. simpl snd in H1.
    destruct H1 as (Hrb & Hc1 & Ht1).
    rewrite Hctx in Hc1, Ht1. simpl in Hc1, Ht1.
    replace (Z.min (Z.of_nat a * Mb) (size0 tokens)) with (Z.of_nat a * Mb)
      in * by lia.
    assert (Hblock :
      micro_batch_events (is_pipeline_first_stage E)
        (is_pipeline_last_stage E) (get_args E) tokens position_ids Mb S_len
        (mkContext q0 b0) (micro_batch_bounds (size0 tokens) Mb (Z.of_nat a))
      = helper_events (is_pipeline_first_stage E) (get_args E)
          (slice_rows tokens (Z.of_nat a * Mb)
             (Z.min ((Z.of_nat a + 1) * Mb) (size0 tokens)))
          (slice_rows position_ids (Z.of_nat a * Mb)
             (Z.min ((Z.of_nat a + 1) * Mb) (size0 tokens)))
          (if negb (Z.min ((Z.of_nat a + 1) * Mb) (size0 tokens)
                    - Z.of_nat a * Mb =? Mb) then None else prealloc)
          (mkContext q0 (b0 + Z.of_nat a * Mb))
        ++ [EvBatchSizeOffset
              (b0 + Z.of_nat a * Mb
               + (Z.min ((Z.of_nat a + 1) * Mb) (size0 tokens)
                  - Z.of_nat a * Mb))]
        ++ (if is_pipeline_last_stage E
            then [EvCopyLogits (Z.of_nat a * Mb)
                    (Z.min ((Z.of_nat a + 1) * Mb) (size0 tokens))]
            else [])).
    { rewrite Hb. unfold micro_batch_events.
      replace (Z.min (Z.of_nat a * Mb) (size0 tokens)) with (Z.of_nat a * Mb)
        by lia.
      simpl sequence_len_offset. simpl batch_size_offset.
      fold prealloc.
      destruct (Z.min ((Z.of_nat a + 1) * Mb) (size0 tokens)
                - Z.of_nat a * Mb =? Mb); simpl negb; cbv iota.
      - f_equal. f_equal. f_equal. f_equal. lia.
      - f_equal. f_equal. f_equal. f_equal. lia. }
    destruct (Z.min ((Z.of_nat a + 1) * Mb) (size0 tokens)
              - Z.of_nat a * Mb =? Mb) eqn:Efull.
    + (* a full micro-batch: the buffer is kept for the next turn *)
      apply Z.eqb_eq in Efull. simpl negb in Hrb. cbv iota in Hrb. subst rb1.
      specialize (IH (S a) s1 s' rb').
      destruct IH as (IHc & IHt & IHr).
      * lia.
      * rewrite Hc1. f_equal. lia.
      * exact H.
      * replace (Z.of_nat (a + S n)) with (Z.of_nat (S a + n)) by lia.
        split; [exact IHc|]. split; [|exact IHr].
        rewrite IHt, Ht1. cbn [seq map flat_map]. rewrite Hblock.
        repeat rewrite <- app_assoc. reflexivity.
    + (* a short micro-batch is the last one *)
      apply Z.eqb_neq in Efull.
      assert (Hlast : Z.of_nat a + 1 >= num).
      { destruct (Z_lt_ge_dec (Z.of_nat a + 1) num) as [Hlt'|]; [|assumption].
        specialize (Hleast (Z.of_nat a + 1) ltac:(lia)). lia. }
      assert (n = 0)%nat by lia. subst n.
      simpl in H. injection H as <- <-.
      split; [|split].
      * rewrite Hc1. f_equal. replace (Z.of_nat (a + 1)) with (Z.of_nat a + 1)
          by lia. lia.
      * rewrite Ht1. cbn [seq map flat_map]. rewrite Hblock, app_nil_r.
        reflexivity.
      * intros Hlt'. lia.
Qed.

End LoopFacts.

(* ================================================================== *)
(** ** Which code writes which offset *)

Section SilentFacts.

Context {World : Type}.
Variable w : Event -> bool.

Lemma silent_ret {A : Type} (a : A) : silent w (ret (World := World) a).
Proof.
  intros s s' r H. injection H as <- _. exists [].
  rewrite app_nil_r. split; reflexivity.
Qed.

Lemma silent_raise {A : Type} (e : exn) :
  silent w (raise (World := World) (A := A) e).
Proof.
  intros s s' r H. injection H as <- _. exists [].
  rewrite app_nil_r. split; reflexivity.
Qed.

Lemma silent_bind {A B : Type} (m : M World A) (k : A -> M World B) :
  silent w m -> (forall a, silent w (k a)) -> silent w (bind m k).
Proof.
  intros Hm Hk s s' r H. unfold bind in H.
  destruct (m s) as [s1 [e|a]] eqn:Em.
  - injection H as <- <-. exact (Hm _ _ _ Em).
  - destruct (Hm _ _ _ Em) as (e1 & T1 & F1).
    destruct (Hk a _ _ _ H) as (e2 & T2 & F2).
    exists (e1 ++ e2). rewrite T2, T1, app_assoc, filter_app, F1, F2.
    split; reflexivity.
Qed.

Lemma silent_log (ev : Event) :
  w ev = false -> silent w (log (World := World) ev).
Proof.
  intros Hev s s' r H. injection H as <- _. exists [ev]. simpl.
  rewrite Hev. split; reflexivity.
Qed.

Lemma silent_effect (f : World -> World * option exn) : silent w (effect f).
Proof.
  intros s s' r H. unfold effect in H. destruct (f (world s)) as [w' o].
  injection H as <- _. exists []. simpl. rewrite app_nil_r.
  split; reflexivity.
Qed.

Lemma silent_when (b : bool) (m : M World unit) :
  silent w m -> silent w (when b m).
Proof. intros Hm. destruct b; [exact Hm | apply silent_ret]. Qed.

Lemma silent_lift_result {A : Type} (r : exn + A) :
  silent w (lift_result (World := World) r).
Proof. destruct r; [apply silent_raise | apply silent_ret]. Qed.

Lemma silent_for_each {X S : Type} (body : X -> S -> M World S) l acc :
  (forall x a, silent w (body x a)) -> silent w (for_each body l acc).
Proof.
  intros Hb. revert acc. induction l as [|x l IH]; intros acc; simpl.
  - apply silent_ret.
  - apply silent_bind; [apply Hb | exact IH].
Qed.

End SilentFacts.

Ltac silent_step :=
  first [ apply silent_ret | apply silent_raise
        | apply silent_log; reflexivity
        | apply silent_effect | apply silent_lift_result
        | apply silent_when | apply silent_bind; [|intros ?] ].

Section SilentMethods.

Context {World Tensor Mask : Type}.
Variable E : Collaborators World Tensor Mask.
Variable w : Event -> bool.
Hypothesis w_offsets_only :
  forall ev, w ev = true ->
             is_sequence_len_write ev = true \/ is_batch_size_write ev = true.

Lemma w_false ev :
  is_sequence_len_write ev = false -> is_batch_size_write ev = false ->
  w ev = false.
Proof.
  intros H1 H2. destruct (w ev) eqn:Ew; [|reflexivity].
  destruct (w_offsets_only ev Ew); congruence.
Qed.

Lemma silent_forward tokens position_ids mask :
  silent w (_forward E tokens position_ids mask).
Proof.
  intros s s' r H. unfold _forward in H.
  destruct (model E tokens position_ids mask (inference_context s) (world s))
    as [[w' c'] r'].
  injection H as <- _. eexists. split; [reflexivity|].
  simpl. rewrite w_false; reflexivity.
Qed.

(** A forward step writes neither offset. *)
Lemma silent_helper self tokens position_ids mask recv_buffer :
  silent w (_forward_step_helper E self tokens position_ids mask recv_buffer).
Proof.
  unfold _forward_step_helper.
  apply silent_bind; [|intros ?].
  { destruct (match recv_buffer with
              | Some b => Some b
              | None => _ end).
    - apply silent_when. apply silent_bind; [|intros ?; apply silent_effect].
      apply silent_log. apply w_false; reflexivity.
    - apply silent_ret. }
  apply silent_bind; [|intros ?].
  { apply silent_when. apply silent_bind; [|intros ?; apply silent_effect].
    apply silent_log. apply w_false; reflexivity. }
  apply silent_bind; [apply silent_forward | intros out].
  apply silent_bind; [destruct out as [t|[|t ts]]; silent_step | intros ?].
  apply silent_bind; [apply silent_log; apply w_false; reflexivity | intros ?].
  apply silent_bind; [apply silent_effect | intros ?; apply silent_ret].
Qed.

End SilentMethods.

Section WritesOfTheMethods.

Context {World Tensor Mask : Type}.
Variable E : Collaborators World Tensor Mask.

Lemma offsets_only_sequence ev :
  is_sequence_len_write ev = true ->
  is_sequence_len_write ev = true \/ is_batch_size_write ev = true.
Proof. auto. Qed.

Lemma offsets_only_batch ev :
  is_batch_size_write ev = true ->
  is_sequence_len_write ev = true \/ is_batch_size_write ev = true.
Proof. auto. Qed.

Lemma add_batch_size_offset_silent (n : Z) :
  silent is_sequence_len_write (add_batch_size_offset (World := World) n).
Proof.
  intros s s' r H. injection H as <- _. eexists. split; reflexivity.
Qed.

(** The loop of the chunked path never writes the sequence offset. *)
Lemma loop_silent self tokens position_ids mask Mb logits indices rb :
  silent is_sequence_len_write
    (micro_batch_loop E self tokens position_ids mask Mb logits indices rb).
Proof.
  unfold micro_batch_loop. apply silent_for_each. intros k acc.
  unfold micro_batch_step.
  destruct (micro_batch_bounds (size0 tokens) Mb k) as [start stop].
  apply silent_bind;
    [apply silent_helper; apply offsets_only_sequence | intros out].
  apply silent_bind; [apply add_batch_size_offset_silent | intros ?].
  apply silent_bind; [|intros ?; apply silent_ret].
  apply silent_when. destruct logits; repeat silent_step.
Qed.

(** The loop of the chunked path leaves the sequence offset alone. *)
Lemma loop_keeps_sequence self tokens position_ids mask Mb logits indices rb :
  model_keeps E sequence_len_offset ->
  field_stable sequence_len_offset
    (micro_batch_loop E self tokens position_ids mask Mb logits indices rb).
Proof.
  intros Hk. unfold micro_batch_loop. apply stable_for_each. intros k acc.
  unfold micro_batch_step.
  destruct (micro_batch_bounds (size0 tokens) Mb k) as [start stop].
  apply stable_bind; [apply stable_helper; exact Hk | intros out].
  apply stable_bind;
    [apply add_batch_size_offset_keeps_sequence | intros ?].
  apply stable_bind; [|intros ?; apply stable_ret].
  apply stable_when. destruct logits; repeat stable_step.
Qed.

End WritesOfTheMethods.

(* ================================================================== *)
(** ** The receive buffer *)


(* ================================================================== *)
(** ** The routing decision *)

Lemma init_pipeline_flag (args : Args) :
  pipeline_size_larger_than_one (__init__ args) = true <->
  1 < pipeline_model_parallel_size args.
Proof. unfold __init__. simpl. apply Z.ltb_lt. Qed.




(* ================================================================== *)
(** ** The micro-batch plan *)

Lemma nth_error_plan (B Mb n : Z) (i : nat) (r : Z * Z) :
  num_micro_batches B Mb = inr n ->
  nth_error (micro_batch_plan B Mb) i = Some r ->
  Z.of_nat i < n /\ r = micro_batch_bounds B Mb (Z.of_nat i).
Proof.
  intros Hn. unfold micro_batch_plan. rewrite Hn, nth_error_map.
  destruct (nth_error (py_range n) i) as [k|] eqn:Ek; [|discriminate].
  intros H. injection H as <-.
  destruct (nth_error_py_range _ _ _ Ek) as [-> Hlt]. auto.
Qed.

Lemma in_plan (B Mb n : Z) (r : Z * Z) :
  num_micro_batches B Mb = inr n ->
  In r (micro_batch_plan B Mb) <->
  exists k, 0 <= k < n /\ r = micro_batch_bounds B Mb k.
Proof.
  intros Hn. unfold micro_batch_plan. rewrite Hn, in_map_iff. split.
  - intros (k & <- & Hk). exists k. apply in_py_range in Hk. auto.
  - intros (k & Hk & ->). exists k. split; [reflexivity|].
    apply in_py_range. exact Hk.
Qed.

Lemma plan_length (B Mb n : Z) :
  num_micro_batches B Mb = inr n -> 0 <= n ->
  Z.of_nat (length (micro_batch_plan B Mb)) = n.
Proof.
  intros Hn H0. unfold micro_batch_plan, py_range.
  rewrite Hn, !length_map, length_seq. lia.
Qed.

(** C3.  For a batch of B >= 1 sequences and micro-batches of M >= 1, the
    ranges the chunked path generates, start = k*M and
    end = min(start+M, B) for k = 0 .. ceil(B/M)-1, increase monotonically,
    do not overlap pairwise, and their union is exactly [0, B); for B = 10
    and M = 4 the plan is [0,4), [4,8), [8,10). *)
Theorem micro_batch_plan_partition (B Mb : Z) :
  1 <= B -> 1 <= Mb ->
  let plan := micro_batch_plan B Mb in
  Z.of_nat (length plan) = (B + Mb - 1) / Mb
  /\ (forall i r, nth_error plan i = Some r ->
        r = (Z.of_nat i * Mb, Z.min (Z.of_nat i * Mb + Mb) B)
        /\ fst r < snd r)
  /\ (forall i j r1 r2, (i < j)%nat ->
        nth_error plan i = Some r1 -> nth_error plan j = Some r2 ->
        fst r1 < fst r2 /\ snd r1 < snd r2 /\ snd r1 <= fst r2)
  /\ (forall x, 0 <= x < B <->
                exists r, In r plan /\ fst r <= x < snd r)
  /\ micro_batch_plan 10 4 = [(0, 4); (4, 8); (8, 10)].
Proof.
  intros HB HM plan.
  destruct (num_micro_batches_defined B Mb HM) as [n Hn].
  destruct (num_micro_batches_least B Mb n HM ltac:(lia) Hn)
    as (Hn0 & Hcover & Hleast).
  split; [|split; [|split; [|split]]].
  - unfold plan. rewrite (plan_length _ _ _ Hn Hn0).
    apply Z.div_unique_pos with (r := B + Mb - 1 - Mb * n).
    + assert (n = 0 \/ 0 <= n - 1 < n) as [->|Hp] by lia; [lia|].
      specialize (Hleast _ Hp). nia.
    + lia.
  - intros i r Hi. destruct (nth_error_plan _ _ _ _ _ Hn Hi) as [Hlt ->].
    unfold micro_batch_bounds. simpl. split; [reflexivity|].
    specialize (Hleast (Z.of_nat i) ltac:(lia)). lia.
  - intros i j r1 r2 Hij H1 H2.
    destruct (nth_error_plan _ _ _ _ _ Hn H1) as [Hi ->].
    destruct (nth_error_plan _ _ _ _ _ Hn H2) as [Hj ->].
    unfold micro_batch_bounds. simpl.
    pose proof (Hleast (Z.of_nat j) ltac:(lia)) as Hjb.
    assert (Z.of_nat i * Mb + Mb <= Z.of_nat j * Mb) by nia.
    lia.
  - intros x. split.
    + intros Hx. exists (micro_batch_bounds B Mb (x / Mb)).
      pose proof (Z.div_mod x Mb ltac:(lia)) as Hdm.
      pose proof (Z.mod_pos_bound x Mb ltac:(lia)) as Hr.
      assert (Hq : 0 <= x / Mb) by (apply Z.div_pos; lia).
      split.
      * apply (in_plan _ _ _ _ Hn). exists (x / Mb). split; [|reflexivity].
        split; [exact Hq|]. nia.
      * unfold micro_batch_bounds. simpl. nia.
    + intros (r & Hr & Hx). apply (in_plan _ _ _ _ Hn) in Hr.
      destruct Hr as (k & Hk & ->). unfold micro_batch_bounds in Hx.
      simpl in Hx. nia.
  - reflexivity.
Qed.

(** A run at B = 10 and M = 4:
    three micro-batches. *)
Lemma micro_batch_plan_partition_witness :
  1 <= 10 /\ 1 <= 4
  /\ Z.of_nat (length (micro_batch_plan 10 4)) = (10 + 4 - 1) / 4.
Proof.
  split; [lia|]. split; [lia|].
  apply (micro_batch_plan_partition 10 4); lia.
Defined.

(* ================================================================== *)
(** ** The two paths of a call *)

Section Paths.

Context {World Tensor Mask : Type}.
Variable E : Collaborators World Tensor Mask.
Variable self : ForwardStep.
Variables tokens position_ids : IntTensor.
Variable mask : Mask.
Variable recv_buffer_seq_length : option Z.

Lemma call_chunked m s :
  route self tokens recv_buffer_seq_length = inr (Chunked m) ->
  __call__ E self tokens position_ids mask recv_buffer_seq_length s =
  _with_pipelining_forward_step E self tokens position_ids mask m
    recv_buffer_seq_length s.
Proof. intros H. unfold __call__. rewrite H. reflexivity. Qed.

Lemma call_unchunked s :
  route self tokens recv_buffer_seq_length = inr Unchunked ->
  __call__ E self tokens position_ids mask recv_buffer_seq_length s =
  _no_pipelining_forward_step E self tokens position_ids mask
    (match recv_buffer_seq_length with
     | None => None
     | Some n => _allocate_recv_buffer (is_pipeline_first_stage E)
                   (get_args E) (size0 tokens) n
     end) s.
Proof. intros H. unfold __call__. rewrite H. reflexivity. Qed.

Lemma call_route_raises e s :
  route self tokens recv_buffer_seq_length = inl e ->
  __call__ E self tokens position_ids mask recv_buffer_seq_length s =
  (s, inl e).
Proof. intros H. unfold __call__. rewrite H. reflexivity. Qed.

Lemma route_micro_batch_size_pos m :
  route self tokens recv_buffer_seq_length = inr (Chunked m) -> 1 <= m.
Proof.
  unfold route, py_floordiv.
  destruct (_ && _); [|discriminate].
  destruct (_ <=? _); [|discriminate].
  destruct (_ =? 0); [discriminate|].
  intros H. injection H as <-. lia.
Qed.

(** What a chunked call that returns has done: the loop over all the
    micro-batches, then one write of each offset. *)
Lemma with_pipelining_returns m s s' r :
  _with_pipelining_forward_step E self tokens position_ids mask m
    recv_buffer_seq_length s = (s', inr r) ->
  exists n s1 rb1,
    num_micro_batches (size0 tokens) m = inr n
    /\ micro_batch_loop E self tokens position_ids mask m
         (preallocate_logits E (size0 tokens)
            (override_or recv_buffer_seq_length (size1 tokens)))
         (py_range n)
         (_allocate_recv_buffer (is_pipeline_first_stage E) (get_args E) m
            (override_or recv_buffer_seq_length (size1 tokens)))
         s = (s1, inr rb1)
    /\ inference_context s' =
       mkContext (sequence_len_offset (inference_context s1) + size1 tokens) 0
    /\ trace s' =
       trace s1 ++
       [EvSequenceLenOffset
          (sequence_len_offset (inference_context s1) + size1 tokens);
        EvBatchSizeOffset 0]
    /\ r = option_map LogitsBuffer
             (preallocate_logits E (size0 tokens)
                (override_or recv_buffer_seq_length (size1 tokens))).
Proof.
  unfold _with_pipelining_forward_step. intros H.
  apply bind_inr in H as (s0 & n & H0 & H).
  destruct (num_micro_batches (size0 tokens) m) as [e|n'] eqn:En;
    [discriminate|].
  injection H0 as <- <-.
  apply bind_inr in H as (s1 & rb1 & H1 & H).
  apply bind_inr in H as (s2 & u2 & H2 & H).
  apply bind_inr in H as (s3 & u3 & H3 & H).
  injection H as <- <-.
  injection H2 as <-. injection H3 as <-. simpl.
  exists n', s1, rb1. rewrite <- app_assoc. simpl. auto 6.
Qed.

(** What an unchunked call that returns has done: one forward step, then
    one write of the sequence offset. *)
Lemma no_pipelining_returns recv_buffer s s' r :
  _no_pipelining_forward_step E self tokens position_ids mask recv_buffer s
  = (s', inr r) ->
  exists s1 out,
    _forward_step_helper E self tokens position_ids mask recv_buffer s
    = (s1, inr out)
    /\ inference_context s' =
       mkContext (sequence_len_offset (inference_context s1) + size1 tokens)
                 (batch_size_offset (inference_context s1))
    /\ trace s' =
       trace s1 ++
       [EvSequenceLenOffset
          (sequence_len_offset (inference_context s1) + size1 tokens)]
    /\ r = (if is_pipeline_last_stage E then Some (ModelLogits out)
            else None).
Proof.
  unfold _no_pipelining_forward_step. intros H.
  apply bind_inr in H as (s1 & out & H1 & H).
  apply bind_inr in H as (s2 & u2 & H2 & H).
  injection H as <- <-. injection H2 as <-. simpl.
  exists s1, out. auto.
Qed.

Lemma context_eta (c : InferenceContext) :
  c = mkContext (sequence_len_offset c) (batch_size_offset c).
Proof. destruct c. reflexivity. Qed.

End Paths.

(* ================================================================== *)
(** ** Calls that return *)

Section ReturnFacts.

Context {World : Type}.

Lemma returns_ret {A : Type} (a : A) : returns (ret (World := World) a).
Proof. intros s. exists s, a. reflexivity. Qed.

Lemma returns_bind {A B : Type} (m : M World A) (k : A -> M World B) :
  returns m -> (forall a, returns (k a)) -> returns (bind m k).
Proof.
  intros Hm Hk s. destruct (Hm s) as (s1 & a & H1).
  destruct (Hk a s1) as (s2 & b & H2).
  exists s2, b. rewrite (bind_run_inr _ _ _ _ _ H1). exact H2.
Qed.

Lemma returns_log (ev : Event) : returns (log (World := World) ev).
Proof. intros s. eexists. exists tt. reflexivity. Qed.

Lemma returns_effect (f : World -> World * option exn) :
  (forall w, snd (f w) = None) -> returns (effect f).
Proof.
  intros Hf s. unfold effect. specialize (Hf (world s)).
  destruct (f (world s)) as [w o]. simpl in Hf. subst o.
  eexists. exists tt. reflexivity.
Qed.

Lemma returns_when (b : bool) (m : M World unit) :
  returns m -> returns (when b m).
Proof. intros Hm. destruct b; [exact Hm | apply returns_ret]. Qed.

Lemma returns_for_each {X S : Type} (body : X -> S -> M World S) l acc :
  (forall x a, returns (body x a)) -> returns (for_each body l acc).
Proof.
  intros Hb. revert acc. induction l as [|x l IH]; intros acc; simpl.
  - apply returns_ret.
  - apply returns_bind; [apply Hb | exact IH].
Qed.

End ReturnFacts.

Section CallsThatReturn.

Context {World Tensor Mask : Type}.
Variable E : Collaborators World Tensor Mask.
Hypothesis well_behaved : collaborators_return E.

Lemma helper_total self tokens position_ids mask recv_buffer :
  returns (_forward_step_helper E self tokens position_ids mask recv_buffer).
Proof.
  destruct well_behaved as (Hmodel & Hrecv & Hsend & _).
  unfold _forward_step_helper.
  apply returns_bind; [|intros ?].
  { destruct (match recv_buffer with
              | Some b => Some b
              | None => _ end) as [b|]; [|apply returns_ret].
    apply returns_when. apply returns_bind; [apply returns_log | intros ?].
    apply returns_effect. apply Hrecv. }
  apply returns_bind; [|intros ?].
  { apply returns_when. apply returns_bind; [apply returns_log | intros ?].
    apply returns_effect. reflexivity. }
  intros s. unfold bind at 1. unfold _forward.
  destruct (Hmodel tokens position_ids mask (inference_context s) (world s))
    as (out & Hout & Hne).
  destruct (model E tokens position_ids mask (inference_context s) (world s))
    as [[w c'] r']. simpl in Hout. subst r'.
  assert (Hrest : forall t,
             returns (log (World := World) EvSend ;;;
                      effect (send_to_next_pipeline_rank E t) ;;; ret t)).
  { intros t. apply returns_bind; [apply returns_log | intros ?].
    apply returns_bind; [apply returns_effect; apply Hsend | intros ?].
    apply returns_ret. }
  destruct out as [t|[|t ts]]; [|congruence|]; apply (Hrest t).
Qed.

(** With collaborators that do not raise, a call whose routing division is
    defined returns. *)
Lemma call_total self tokens position_ids mask recv_buffer_seq_length rt :
  route self tokens recv_buffer_seq_length = inr rt ->
  returns (__call__ E self tokens position_ids mask recv_buffer_seq_length).
Proof.
  intros Er s. destruct rt as [m|].
  - rewrite (call_chunked E _ _ _ _ _ m s Er).
    pose proof (route_micro_batch_size_pos _ _ _ _ Er) as Hm.
    destruct (num_micro_batches_defined (size0 tokens) m Hm) as [n Hn].
    revert s. unfold _with_pipelining_forward_step. rewrite Hn.
    apply returns_bind; [apply returns_ret | intros ?].
    apply returns_bind; [|intros ?].
    + unfold micro_batch_loop. apply returns_for_each. intros k rb.
      unfold micro_batch_step.
      destruct (micro_batch_bounds (size0 tokens) m k) as [start stop].
      apply returns_bind; [apply helper_total | intros out].
      apply returns_bind; [|intros ?].
      { intros s. eexists. exists tt. reflexivity. }
      apply returns_bind; [|intros ?; apply returns_ret].
      unfold preallocate_logits.
      destruct (is_pipeline_last_stage E); [|apply returns_ret].
      simpl. apply returns_bind; [apply returns_log | intros ?].
      apply returns_effect. apply well_behaved.
    + apply returns_bind; [|intros ?].
      { intros s. eexists. exists tt. reflexivity. }
      apply returns_bind; [|intros ?; apply returns_ret].
      intros s. eexists. exists tt. reflexivity.
  - rewrite (call_unchunked E _ _ _ _ _ s Er).
    revert s. unfold _no_pipelining_forward_step.
    apply returns_bind; [apply helper_total | intros out].
    apply returns_bind; [|intros ?; apply returns_ret].
    intros s. eexists. exists tt. reflexivity.
Qed.

End CallsThatReturn.

(* ================================================================== *)
(** ** The sequence offset *)

Lemma demo_rank_read_only first_stage last_stage a fail_at :
  offsets_read_only (Demo.rank first_stage last_stage a fail_at).
Proof. split; intros tokens position_ids mask c w; reflexivity. Qed.

(** C1, amended.  A call of __call__ that returns, with a model that leaves
    sequence_len_offset alone, has increased sequence_len_offset by exactly
    tokens.size(1), whether or not recv_buffer_seq_length is given, and has
    written it exactly once, on the chunked path as on the unchunked
    one. *)
Theorem sequence_len_offset_advances_by_token_length
  {World Tensor Mask : Type} (E : Collaborators World Tensor Mask)
  (self : ForwardStep) (tokens position_ids : IntTensor) (mask : Mask)
  (recv_buffer_seq_length : option Z) (s s' : State World)
  (r : option (Logits Tensor)) :
  model_keeps E sequence_len_offset ->
  __call__ E self tokens position_ids mask recv_buffer_seq_length s
  = (s', inr r) ->
  sequence_len_offset (inference_context s') =
  sequence_len_offset (inference_context s) + size1 tokens
  /\ exists evs,
       trace s' = trace s ++ evs
       /\ filter is_sequence_len_write evs =
          [EvSequenceLenOffset
             (sequence_len_offset (inference_context s) + size1 tokens)].
Proof.
  intros Hk H.
  destruct (route self tokens recv_buffer_seq_length) as [e|[m|]] eqn:Er.
  - rewrite (call_route_raises E _ _ _ _ _ e s Er) in H. discriminate.
  - rewrite (call_chunked E _ _ _ _ _ m s Er) in H.
    apply with_pipelining_returns in H
      as (n & s1 & rb1 & Hn & Hloop & Hc & Ht & _).
    pose proof (loop_keeps_sequence E _ _ _ _ _ _ _ _ Hk _ _ _ Hloop) as Q.
    destruct (loop_silent E _ _ _ _ _ _ _ _ _ _ _ Hloop) as (evs & T & F).
    rewrite Hc, Ht, T, Q. simpl. split; [reflexivity|].
    eexists. rewrite <- app_assoc. split; [reflexivity|].
    rewrite filter_app, F. reflexivity.
  - rewrite (call_unchunked E _ _ _ _ _ s Er) in H.
    apply no_pipelining_returns in H as (s1 & out & Hh & Hc & Ht & _).
    pose proof (stable_helper E _ _ _ _ _ _ Hk _ _ _ Hh) as Q.
    destruct (silent_helper E is_sequence_len_write offsets_only_sequence
                _ _ _ _ _ _ _ _ Hh) as (evs & T & F).
    rewrite Hc, Ht, T, Q. simpl. split; [reflexivity|].
    eexists. rewrite <- app_assoc. split; [reflexivity|].
    rewrite filter_app, F. reflexivity.
Qed.

(** A run on the
    last of two stages, for ten sequences of three tokens run in three
    micro-batches. *)
Lemma sequence_len_offset_advances_by_token_length_witness :
  model_keeps (Demo.rank false true Demo.args None) sequence_len_offset
  /\ exists s' r,
       __call__ (Demo.rank false true Demo.args None) (__init__ Demo.args)
         Demo.tokens Demo.position_ids tt None Demo.start_state = (s', inr r)
       /\ sequence_len_offset (inference_context s') = 0 + 3.
Proof.
  split; [apply demo_rank_read_only|].
  eexists. eexists. split; [vm_compute; reflexivity|].
  refine (proj1 (sequence_len_offset_advances_by_token_length
                   (Demo.rank false true Demo.args None) (__init__ Demo.args)
                   Demo.tokens Demo.position_ids tt None Demo.start_state
                   _ _ _ _)).
  - apply demo_rank_read_only.
  - vm_compute. reflexivity.
Defined.

(** C1 as first stated fails when recv_buffer_seq_length differs from
    tokens.size(1): with the override 7 on sequences of three tokens the
    call returns and the offset has moved from 0 to 3, not to 7, on the
    chunked path (two stages) and on the unchunked one (one stage). *)
Lemma sequence_len_offset_ignores_override :
  override_or (Some 7) (size1 Demo.tokens) = 7
  /\ (exists s' r,
        route (__init__ Demo.args) Demo.tokens (Some 7) = inr (Chunked 1)
        /\ __call__ (Demo.rank false true Demo.args None)
             (__init__ Demo.args) Demo.tokens Demo.position_ids tt (Some 7)
             Demo.start_state = (s', inr r)
        /\ sequence_len_offset (inference_context s') = 3
        /\ sequence_len_offset (inference_context s') <>
           sequence_len_offset (inference_context Demo.start_state)
           + override_or (Some 7) (size1 Demo.tokens))
  /\ (exists s' r,
        route (__init__ (mkArgs 1 12 32 8 false float16)) Demo.tokens (Some 7)
        = inr Unchunked
        /\ __call__ (Demo.rank false true (mkArgs 1 12 32 8 false float16) None)
             (__init__ (mkArgs 1 12 32 8 false float16))
             Demo.tokens Demo.position_ids tt (Some 7)
             Demo.start_state = (s', inr r)
        /\ sequence_len_offset (inference_context s') = 3
        /\ sequence_len_offset (inference_context s') <>
           sequence_len_offset (inference_context Demo.start_state)
           + override_or (Some 7) (size1 Demo.tokens)).
Proof.
  split; [reflexivity|]. split.
  - eexists. eexists. split; [reflexivity|].
    split; [vm_compute; reflexivity|]. split; [reflexivity|].
    vm_compute. discriminate.
  - eexists. eexists. split; [reflexivity|].
    split; [vm_compute; reflexivity|]. split; [reflexivity|].
    vm_compute. discriminate.
Qed.

(* ================================================================== *)
(** ** The unchunked path and the batch offset *)

Section Unchunked.

Context {World Tensor Mask : Type}.
Variable E : Collaborators World Tensor Mask.

Lemma add_sequence_len_offset_silent (n : Z) :
  silent is_batch_size_write (add_sequence_len_offset (World := World) n).
Proof.
  intros s s' r H. injection H as <- _. eexists. split; reflexivity.
Qed.

Lemma no_pipelining_silent self tokens position_ids mask recv_buffer :
  silent is_batch_size_write
    (_no_pipelining_forward_step E self tokens position_ids mask recv_buffer).
Proof.
  unfold _no_pipelining_forward_step.
  apply silent_bind;
    [apply silent_helper; apply offsets_only_batch | intros out].
  apply silent_bind; [apply add_sequence_len_offset_silent | intros ?].
  apply silent_ret.
Qed.

Lemma no_pipelining_keeps_batch self tokens position_ids mask recv_buffer :
  model_keeps E batch_size_offset ->
  field_stable batch_size_offset
    (_no_pipelining_forward_step E self tokens position_ids mask recv_buffer).
Proof.
  intros Hk. unfold _no_pipelining_forward_step.
  apply stable_bind; [apply stable_helper; exact Hk | intros out].
  apply stable_bind;
    [apply add_sequence_len_offset_keeps_batch | intros ?].
  apply stable_ret.
Qed.

End Unchunked.

(** C9.  On the unchunked path ForwardStep never writes batch_size_offset,
    whether the call returns or raises.  With a model that leaves
    batch_size_offset alone the offset therefore keeps the value it had at
    entry, and is 0 at the end exactly when it was 0 at entry.  The one field
    of the context ForwardStep changes is sequence_len_offset: when the call
    returns, the context is the one the forward step left, with
    tokens.size(1) added to sequence_len_offset. *)
Theorem unchunked_never_writes_batch_size_offset
  {World Tensor Mask : Type} (E : Collaborators World Tensor Mask)
  (self : ForwardStep) (tokens position_ids : IntTensor) (mask : Mask)
  (recv_buffer_seq_length : option Z) (s s' : State World)
  (r : exn + option (Logits Tensor)) :
  route self tokens recv_buffer_seq_length = inr Unchunked ->
  __call__ E self tokens position_ids mask recv_buffer_seq_length s
  = (s', r) ->
  (exists evs, trace s' = trace s ++ evs
               /\ filter is_batch_size_write evs = [])
  /\ (model_keeps E batch_size_offset ->
      batch_size_offset (inference_context s') =
      batch_size_offset (inference_context s)
      /\ (batch_size_offset (inference_context s') = 0 <->
          batch_size_offset (inference_context s) = 0))
  /\ (forall logits, r = inr logits ->
      exists s1 out,
        _forward_step_helper E self tokens position_ids mask
          (match recv_buffer_seq_length with
           | None => None
           | Some n => _allocate_recv_buffer (is_pipeline_first_stage E)
                         (get_args E) (size0 tokens) n
           end) s = (s1, inr out)
        /\ inference_context s' =
           mkContext
             (sequence_len_offset (inference_context s1) + size1 tokens)
             (batch_size_offset (inference_context s1))).
Proof.
  intros Er H. rewrite (call_unchunked E _ _ _ _ _ s Er) in H.
  split; [|split].
  - exact (no_pipelining_silent E _ _ _ _ _ _ _ _ H).
  - intros Hk.
    pose proof (no_pipelining_keeps_batch E _ _ _ _ _ Hk _ _ _ H) as Hb.
    rewrite Hb. split; [reflexivity | tauto].
  - intros logits ->.
    apply no_pipelining_returns in H as (s1 & out & Hh & Hc & _ & _).
    exists s1, out. auto.
Qed.

(** A run on a
    single stage, entered with the batch offset at 5. *)
Lemma unchunked_never_writes_batch_size_offset_witness :
  route (__init__ (mkArgs 1 12 32 8 false float16)) Demo.tokens None
  = inr Unchunked
  /\ exists s' r,
       __call__ (Demo.rank true true (mkArgs 1 12 32 8 false float16) None)
         (__init__ (mkArgs 1 12 32 8 false float16))
         Demo.tokens Demo.position_ids tt None
         (mkState 0%nat (mkContext 0 5) []) = (s', r)
       /\ batch_size_offset (inference_context s') = 5.
Proof.
  split; [reflexivity|].
  eexists. eexists. split; [vm_compute; reflexivity|].
  refine (proj1 (proj1 (proj2 (unchunked_never_writes_batch_size_offset
                                 (Demo.rank true true
                                    (mkArgs 1 12 32 8 false float16) None)
                                 (__init__ (mkArgs 1 12 32 8 false float16))
                                 Demo.tokens Demo.position_ids tt None
                                 (mkState 0%nat (mkContext 0 5) [])
                                 _ _ _ _)) _)).
  - reflexivity.
  - vm_compute. reflexivity.
  - apply demo_rank_read_only.
Defined.

(* ================================================================== *)
(** ** The logits *)

(** C6.  On a rank that is not the last pipeline stage a call of __call__
    that returns, returns None, on the chunked path as on the unchunked
    one; a result that is not None comes from the last stage. *)
Theorem non_last_stage_returns_no_logits
  {World Tensor Mask : Type} (E : Collaborators World Tensor Mask)
  (self : ForwardStep) (tokens position_ids : IntTensor) (mask : Mask)
  (recv_buffer_seq_length : option Z) (s s' : State World)
  (r : option (Logits Tensor)) :
  __call__ E self tokens position_ids mask recv_buffer_seq_length s
  = (s', inr r) ->
  (is_pipeline_last_stage E = false -> r = None)
  /\ (r <> None -> is_pipeline_last_stage E = true).
Proof.
  intros H.
  assert (Hr : is_pipeline_last_stage E = false -> r = None).
  { intros Hlast.
    destruct (route self tokens recv_buffer_seq_length) as [e|[m|]] eqn:Er.
    - rewrite (call_route_raises E _ _ _ _ _ e s Er) in H. discriminate.
    - rewrite (call_chunked E _ _ _ _ _ m s Er) in H.
      apply with_pipelining_returns in H
        as (n & s1 & rb1 & _ & _ & _ & _ & ->).
      unfold preallocate_logits. rewrite Hlast. reflexivity.
    - rewrite (call_unchunked E _ _ _ _ _ s Er) in H.
      apply no_pipelining_returns in H as (s1 & out & _ & _ & _ & ->).
      rewrite Hlast. reflexivity. }
  split; [exact Hr|].
  intros Hne. destruct (is_pipeline_last_stage E); [reflexivity|].
  exfalso. apply Hne. apply Hr. reflexivity.
Qed.

(** A run on the first of
    two stages, for a batch run in three micro-batches. *)
Lemma non_last_stage_returns_no_logits_witness :
  is_pipeline_last_stage (Demo.rank true false Demo.args None) = false
  /\ exists s' r,
       __call__ (Demo.rank true false Demo.args None) (__init__ Demo.args)
         Demo.tokens Demo.position_ids tt None Demo.start_state
       = (s', inr r)
       /\ r = None.
Proof.
  split; [reflexivity|].
  eexists. eexists. split; [vm_compute; reflexivity|].
  refine (proj1 (non_last_stage_returns_no_logits
                   (Demo.rank true false Demo.args None) (__init__ Demo.args)
                   Demo.tokens Demo.position_ids tt None Demo.start_state
                   _ _ _) _).
  - vm_compute. reflexivity.
  - reflexivity.
Defined.

(** C10.  On the chunked path on the last pipeline stage, the logits a call
    returns are the buffer preallocated with dtype float32 and shape
    (batch_size, seq_len, padded_vocab_size), where seq_len is
    recv_buffer_seq_length if given and tokens.size(1) otherwise; params_dtype
    and fp32_residual_connection play no part in it. *)
Theorem chunked_logits_buffer_shape_dtype
  {World Tensor Mask : Type} (E : Collaborators World Tensor Mask)
  (self : ForwardStep) (tokens position_ids : IntTensor) (mask : Mask)
  (recv_buffer_seq_length : option Z) (m : Z) (s s' : State World)
  (r : option (Logits Tensor)) :
  is_pipeline_last_stage E = true ->
  route self tokens recv_buffer_seq_length = inr (Chunked m) ->
  __call__ E self tokens position_ids mask recv_buffer_seq_length s
  = (s', inr r) ->
  preallocate_logits E (size0 tokens)
    (override_or recv_buffer_seq_length (size1 tokens))
  = Some (mkBuffer [size0 tokens;
                    override_or recv_buffer_seq_length (size1 tokens);
                    padded_vocab_size (get_args E)] float32)
  /\ r = Some (LogitsBuffer
                 (mkBuffer [size0 tokens;
                            override_or recv_buffer_seq_length (size1 tokens);
                            padded_vocab_size (get_args E)] float32)).
Proof.
  intros Hlast Er H.
  rewrite (call_chunked E _ _ _ _ _ m s Er) in H.
  apply with_pipelining_returns in H as (n & s1 & rb1 & _ & _ & _ & _ & ->).
  unfold preallocate_logits. rewrite Hlast. split; reflexivity.
Qed.

(** A run on the last of
    two stages with half-precision parameters and the override 7: the
    logits buffer has shape (10, 7, 32) and dtype float32. *)
Lemma chunked_logits_buffer_shape_dtype_witness :
  is_pipeline_last_stage (Demo.rank false true Demo.args None) = true
  /\ route (__init__ Demo.args) Demo.tokens (Some 7) = inr (Chunked 1)
  /\ exists s' r,
       __call__ (Demo.rank false true Demo.args None) (__init__ Demo.args)
         Demo.tokens Demo.position_ids tt (Some 7) Demo.start_state
       = (s', inr r)
       /\ r = Some (LogitsBuffer (mkBuffer [10; 7; 32] float32)).
Proof.
  split; [reflexivity|]. split; [reflexivity|].
  eexists. eexists. split; [vm_compute; reflexivity|].
  refine (proj2 (chunked_logits_buffer_shape_dtype
                   (Demo.rank false true Demo.args None) (__init__ Demo.args)
                   Demo.tokens Demo.position_ids tt (Some 7) 1
                   Demo.start_state _ _ _ _ _)).
  - reflexivity.
  - reflexivity.
  - vm_compute. reflexivity.
Defined.

(* ================================================================== *)
(** ** The chunked path: order of events and batch offset *)

Lemma filter_flat_map {A B : Type} (w : B -> bool) (f : A -> list B) l :
  filter w (flat_map f l) = flat_map (fun x => filter w (f x)) l.
Proof.
  induction l as [|x l IH]; simpl; [reflexivity|].
  rewrite filter_app, IH. reflexivity.
Qed.

Lemma flat_map_singleton {A B : Type} (g : A -> B) l :
  flat_map (fun x => [g x]) l = map g l.
Proof. induction l as [|x l IH]; simpl; [reflexivity | rewrite IH; reflexivity]. Qed.

Lemma helper_events_no_batch_write first_stage args tokens position_ids rb c :
  filter is_batch_size_write
    (helper_events first_stage args tokens position_ids rb c) = [].
Proof.
  unfold helper_events.
  destruct (match rb with Some b => Some b | None => _ end) as [b|];
    [destruct (0 <? torch_numel b)|]; destruct first_stage; reflexivity.
Qed.

Lemma micro_batch_events_batch_writes first_stage last_stage args tokens
  position_ids Mb S_len entry range :
  filter is_batch_size_write
    (micro_batch_events first_stage last_stage args tokens position_ids
       Mb S_len entry range)
  = [EvBatchSizeOffset (batch_size_offset entry + snd range)].
Proof.
  unfold micro_batch_events. destruct range as [start stop].
  rewrite filter_app, helper_events_no_batch_write.
  destruct last_stage; reflexivity.
Qed.

(** The sizes of micro-batches [0 .. k-1] add up to [k * M] when micro-batch
    [k] exists: they are all full. *)
Lemma sum_sizes_before (B Mb n k : Z) :
  1 <= Mb -> 0 <= B -> num_micro_batches B Mb = inr n -> 0 <= k < n ->
  sum_sizes (map (micro_batch_bounds B Mb) (py_range k)) = k * Mb.
Proof.
  intros HM HB Hn Hk.
  destruct (num_micro_batches_least B Mb n HM HB Hn) as (_ & _ & Hleast).
  unfold py_range.
  assert (G : forall c a, Z.of_nat (a + c) < n ->
            sum_sizes (map (micro_batch_bounds B Mb) (map Z.of_nat (seq a c)))
            = Z.of_nat c * Mb).
  { induction c as [|c IH]; intros a Hac; [reflexivity|].
    cbn [seq map]. unfold sum_sizes in *. cbn [map fold_right].
    rewrite (IH (S a)) by lia.
    unfold range_size, micro_batch_bounds. cbn [fst snd].
    pose proof (Hleast (Z.of_nat a + 1) ltac:(lia)). nia. }
  rewrite (G (Z.to_nat k) 0%nat) by lia. lia.
Qed.

Lemma size0_nonneg (t : IntTensor) : 0 <= size0 t.
Proof. unfold size0. lia. Qed.

Section Chunked.

Context {World Tensor Mask : Type}.
Variable E : Collaborators World Tensor Mask.
Hypothesis read_only : offsets_read_only E.
Variable self : ForwardStep.
Variables tokens position_ids : IntTensor.
Variable mask : Mask.
Variable recv_buffer_seq_length : option Z.
Variable m : Z.
Hypothesis chunked :
  route self tokens recv_buffer_seq_length = inr (Chunked m).

Let S_len : Z := override_or recv_buffer_seq_length (size1 tokens).

(** The first [k] turns of the loop, entered at the start of the call. *)
Lemma loop_prefix_returns n k s sk rbk :
  num_micro_batches (size0 tokens) m = inr n ->
  0 <= k <= n ->
  micro_batch_loop E self tokens position_ids mask m
    (preallocate_logits E (size0 tokens) S_len) (py_range k)
    (_allocate_recv_buffer (is_pipeline_first_stage E) (get_args E) m S_len)
    s = (sk, inr rbk) ->
  inference_context sk =
    mkContext (sequence_len_offset (inference_context s))
              (batch_size_offset (inference_context s)
               + Z.min (k * m) (size0 tokens))
  /\ trace sk =
     trace s ++
     flat_map (micro_batch_events (is_pipeline_first_stage E)
                 (is_pipeline_last_stage E) (get_args E) tokens position_ids
                 m S_len (inference_context s))
              (map (micro_batch_bounds (size0 tokens) m) (py_range k))
  /\ (k < n ->
      rbk = _allocate_recv_buffer (is_pipeline_first_stage E) (get_args E)
              m S_len).
Proof.
  intros Hn Hk H.
  pose proof (route_micro_batch_size_pos _ _ _ _ chunked) as Hm.
  destruct read_only as [Kq Kb].
  destruct (loop_returns E Kq Kb self tokens position_ids mask m
              (preallocate_logits E (size0 tokens) S_len) S_len n Hm Hn
              (sequence_len_offset (inference_context s))
              (batch_size_offset (inference_context s))
              (Z.to_nat k) 0%nat s sk rbk) as (Hc & Ht & Hr).
  - simpl. lia.
  - simpl. pose proof (size0_nonneg tokens).
    replace (Z.min 0 (size0 tokens)) with 0 by lia.
    rewrite Z.add_0_r. apply context_eta.
  - exact H.
  - simpl Nat.add in Hc, Hr. rewrite Z2Nat.id in Hc, Hr by lia.
    rewrite <- context_eta in Ht. auto.
Qed.

(** The trace of a chunked call that returns: the micro-batches of the plan
    one after the other, then the two final writes. *)
Lemma chunked_call_trace s s' r :
  __call__ E self tokens position_ids mask recv_buffer_seq_length s
  = (s', inr r) ->
  trace s' =
  trace s
  ++ flat_map (micro_batch_events (is_pipeline_first_stage E)
                 (is_pipeline_last_stage E) (get_args E) tokens position_ids
                 m S_len (inference_context s))
              (micro_batch_plan (size0 tokens) m)
  ++ [EvSequenceLenOffset
        (sequence_len_offset (inference_context s) + size1 tokens);
      EvBatchSizeOffset 0].
Proof.
  intros H. rewrite (call_chunked E _ _ _ _ _ m s chunked) in H.
  apply with_pipelining_returns in H
    as (n & s1 & rb1 & Hn & Hloop & _ & Ht & _).
  pose proof (route_micro_batch_size_pos _ _ _ _ chunked) as Hm.
  destruct (num_micro_batches_least _ _ _ Hm (size0_nonneg tokens) Hn)
    as (Hn0 & _).
  destruct (loop_prefix_returns n n s s1 rb1 Hn ltac:(lia) Hloop)
    as (Hc & Ht1 & _).
  rewrite Ht, Ht1, Hc. simpl sequence_len_offset.
  unfold micro_batch_plan. rewrite Hn. rewrite <- app_assoc. reflexivity.
Qed.

(** A forward step that raises in micro-batch [k] ends the call. *)
Lemma chunked_call_raises n k s sk rbk s' e :
  num_micro_batches (size0 tokens) m = inr n ->
  0 <= k < n ->
  micro_batch_loop E self tokens position_ids mask m
    (preallocate_logits E (size0 tokens) S_len) (py_range k)
    (_allocate_recv_buffer (is_pipeline_first_stage E) (get_args E) m S_len)
    s = (sk, inr rbk) ->
  micro_batch_step E self tokens position_ids mask m
    (preallocate_logits E (size0 tokens) S_len) k rbk sk = (s', inl e) ->
  __call__ E self tokens position_ids mask recv_buffer_seq_length s
  = (s', inl e).
Proof.
  intros Hn Hk Hpre Hstep.
  rewrite (call_chunked E _ _ _ _ _ m s chunked).
  unfold _with_pipelining_forward_step. rewrite Hn.
  unfold lift_result.
  rewrite (bind_run_inr _ _ s s n eq_refl).
  apply bind_run_inl.
  unfold micro_batch_loop in *.
  rewrite (py_range_split n k Hk), for_each_app.
  fold S_len. rewrite (bind_run_inr _ _ _ _ _ Hpre).
  simpl. apply bind_run_inl. exact Hstep.
Qed.

End Chunked.



(** C4.  Take a call of __call__ entered with batch_size_offset = 0, with a
    model that treats the offsets as read-only.  On the chunked path, the
    state reached when the loop has run micro-batches 0 .. k has
    batch_size_offset equal to the end of micro-batch k, and the successive
    values written to batch_size_offset by a call that returns are the ends
    of the ranges of the plan, in order, followed by 0.  On either path,
    when the call returns batch_size_offset is 0. *)
Theorem batch_size_offset_tracks_end_and_resets
  {World Tensor Mask : Type} (E : Collaborators World Tensor Mask)
  (self : ForwardStep) (tokens position_ids : IntTensor) (mask : Mask)
  (recv_buffer_seq_length : option Z) (s : State World) :
  offsets_read_only E ->
  batch_size_offset (inference_context s) = 0 ->
  (forall m n k sk rbk,
      route self tokens recv_buffer_seq_length = inr (Chunked m) ->
      num_micro_batches (size0 tokens) m = inr n ->
      0 <= k < n ->
      micro_batch_loop E self tokens position_ids mask m
        (preallocate_logits E (size0 tokens)
           (override_or recv_buffer_seq_length (size1 tokens)))
        (py_range (k + 1))
        (_allocate_recv_buffer (is_pipeline_first_stage E) (get_args E) m
           (override_or recv_buffer_seq_length (size1 tokens)))
        s = (sk, inr rbk) ->
      batch_size_offset (inference_context sk) =
      snd (micro_batch_bounds (size0 tokens) m k))
  /\ (forall m s' r,
      route self tokens recv_buffer_seq_length = inr (Chunked m) ->
      __call__ E self tokens position_ids mask recv_buffer_seq_length s
      = (s', inr r) ->
      exists evs,
        trace s' = trace s ++ evs
        /\ filter is_batch_size_write evs =
           map (fun range => EvBatchSizeOffset (snd range))
               (micro_batch_plan (size0 tokens) m)
           ++ [EvBatchSizeOffset 0])
  /\ (forall s' r,
      __call__ E self tokens position_ids mask recv_buffer_seq_length s
      = (s', inr r) ->
      batch_size_offset (inference_context s') = 0).
Proof.
  intros Hro Hb0. split; [|split].
  - intros m n k sk rbk Er Hn Hk Hloop.
    pose proof (route_micro_batch_size_pos _ _ _ _ Er) as Hm.
    destruct (num_micro_batches_least _ _ _ Hm (size0_nonneg tokens) Hn)
      as (_ & _ & Hleast).
    destruct (loop_prefix_returns E Hro _ _ _ _ _ _ Er n (k + 1) s sk rbk Hn
                ltac:(lia) Hloop) as (Hc & _ & _).
    rewrite Hc, Hb0. unfold micro_batch_bounds. simpl. f_equal. lia.
  - intros m s' r Er H.
    pose proof (chunked_call_trace E Hro _ _ _ _ _ _ Er _ _ _ H) as Ht.
    eexists. split; [exact Ht|].
    rewrite filter_app, filter_flat_map.
    rewrite (flat_map_ext _ _
               (fun range =>
                  micro_batch_events_batch_writes _ _ _ _ _ _ _ _ range)).
    rewrite flat_map_singleton, Hb0. reflexivity.
  - intros s' r H.
    destruct (route self tokens recv_buffer_seq_length) as [e|[m|]] eqn:Er.
    + rewrite (call_route_raises E _ _ _ _ _ e s Er) in H. discriminate.
    + rewrite (call_chunked E _ _ _ _ _ m s Er) in H.
      apply with_pipelining_returns in H
        as (n & s1 & rb1 & _ & _ & Hc & _ & _).
      rewrite Hc. reflexivity.
    + rewrite (call_unchunked E _ _ _ _ _ s Er) in H.
      destruct Hro as [_ Kb].
      rewrite (no_pipelining_keeps_batch E _ _ _ _ _ Kb _ _ _ H).
      exact Hb0.
Qed.

(** A run on the last
    of two stages: after micro-batches [0,4) and [4,8) the batch offset is
    8, and it is 0 when the call returns. *)
Lemma batch_size_offset_tracks_end_and_resets_witness :
  offsets_read_only (Demo.rank false true Demo.args None)
  /\ batch_size_offset (inference_context Demo.start_state) = 0
  /\ (exists sk rbk,
        micro_batch_loop (Demo.rank false true Demo.args None)
          (__init__ Demo.args) Demo.tokens Demo.position_ids tt 4
          (Some (mkBuffer [10; 3; 32] float32)) (py_range (1 + 1))
          (Some (mkBuffer [3; 4; 8] float16)) Demo.start_state
        = (sk, inr rbk)
        /\ batch_size_offset (inference_context sk) = 8)
  /\ (exists s' r,
        __call__ (Demo.rank false true Demo.args None) (__init__ Demo.args)
          Demo.tokens Demo.position_ids tt None Demo.start_state
        = (s', inr r)
        /\ batch_size_offset (inference_context s') = 0).
Proof.
  pose proof (batch_size_offset_tracks_end_and_resets
                (Demo.rank false true Demo.args None) (__init__ Demo.args)
                Demo.tokens Demo.position_ids tt None Demo.start_state
                (demo_rank_read_only false true Demo.args None) eq_refl)
    as (Hprefix & _ & Hend).
  split; [apply demo_rank_read_only|]. split; [reflexivity|]. split.
  - eexists. eexists. split; [vm_compute; reflexivity|].
    refine (Hprefix 4 3 1 _ _ _ _ _ _).
    + reflexivity.
    + reflexivity.
    + lia.
    + vm_compute. reflexivity.
  - eexists. eexists. split; [vm_compute; reflexivity|].
    refine (Hend _ _ _). vm_compute. reflexivity.
Defined.

(* ================================================================== *)
(** ** A micro-batch that raises *)

(** C8.  Take a chunked call with a model that treats the offsets as
    read-only.  If the loop has run micro-batches 0 .. k-1 and the forward
    step of micro-batch k raises, the call ends with that exception, so no
    logits are returned; sequence_len_offset has the value it had before
    the call; batch_size_offset has been advanced by the sizes of
    micro-batches 0 .. k-1 and by nothing else, that is by k times the
    micro-batch size. *)
Theorem failed_micro_batch_aborts
  {World Tensor Mask : Type} (E : Collaborators World Tensor Mask)
  (self : ForwardStep) (tokens position_ids : IntTensor) (mask : Mask)
  (recv_buffer_seq_length : option Z) (m n k : Z)
  (s sk s' : State World) (rbk : option Buffer) (e : exn) :
  offsets_read_only E ->
  route self tokens recv_buffer_seq_length = inr (Chunked m) ->
  num_micro_batches (size0 tokens) m = inr n ->
  0 <= k < n ->
  micro_batch_loop E self tokens position_ids mask m
    (preallocate_logits E (size0 tokens)
       (override_or recv_buffer_seq_length (size1 tokens)))
    (py_range k)
    (_allocate_recv_buffer (is_pipeline_first_stage E) (get_args E) m
       (override_or recv_buffer_seq_length (size1 tokens)))
    s = (sk, inr rbk) ->
  let start := fst (micro_batch_bounds (size0 tokens) m k) in
  let stop := snd (micro_batch_bounds (size0 tokens) m k) in
  _forward_step_helper E self (slice_rows tokens start stop)
    (slice_rows position_ids start stop) mask
    (if negb (stop - start =? m) then None else rbk) sk = (s', inl e) ->
  __call__ E self tokens position_ids mask recv_buffer_seq_length s
  = (s', inl e)
  /\ sequence_len_offset (inference_context s') =
     sequence_len_offset (inference_context s)
  /\ batch_size_offset (inference_context s') =
     batch_size_offset (inference_context s)
     + sum_sizes (map (micro_batch_bounds (size0 tokens) m) (py_range k))
  /\ sum_sizes (map (micro_batch_bounds (size0 tokens) m) (py_range k))
     = k * m.
Proof.
  intros Hro Er Hn Hk Hpre start stop Hfail.
  pose proof (route_micro_batch_size_pos _ _ _ _ Er) as Hm.
  destruct (num_micro_batches_least _ _ _ Hm (size0_nonneg tokens) Hn)
    as (_ & _ & Hleast).
  pose proof (sum_sizes_before _ _ _ _ Hm (size0_nonneg tokens) Hn Hk) as Hsum.
  destruct (loop_prefix_returns E Hro _ _ _ _ _ _ Er n k s sk rbk Hn
              ltac:(lia) Hpre) as (Hc & _ & _).
  destruct Hro as [Kq Kb].
  pose proof (stable_helper E _ _ _ _ _ _ Kq _ _ _ Hfail) as Q.
  pose proof (stable_helper E _ _ _ _ _ _ Kb _ _ _ Hfail) as B.
  split; [|split; [|split]].
  - apply (chunked_call_raises E _ _ _ _ _ _ Er n k s sk rbk s' e Hn Hk Hpre).
    apply step_raises. exact Hfail.
  - rewrite Q, Hc. reflexivity.
  - rewrite B, Hc, Hsum. simpl. specialize (Hleast k Hk). lia.
  - exact Hsum.
Qed.

(** A run on the last of two
    stages, with a model that raises when it sees batch offset 4: the
    forward step of micro-batch 1 raises after micro-batch 0 has run. *)
Lemma failed_micro_batch_aborts_witness :
  offsets_read_only (Demo.rank false true Demo.args (Some 4))
  /\ route (__init__ Demo.args) Demo.tokens None = inr (Chunked 4)
  /\ num_micro_batches (size0 Demo.tokens) 4 = inr 3
  /\ 0 <= 1 < 3
  /\ exists sk rbk s' e,
       micro_batch_loop (Demo.rank false true Demo.args (Some 4))
         (__init__ Demo.args) Demo.tokens Demo.position_ids tt 4
         (Some (mkBuffer [10; 3; 32] float32)) (py_range 1)
         (Some (mkBuffer [3; 4; 8] float16)) Demo.start_state
       = (sk, inr rbk)
       /\ _forward_step_helper (Demo.rank false true Demo.args (Some 4))
            (__init__ Demo.args) (slice_rows Demo.tokens 4 8)
            (slice_rows Demo.position_ids 4 8) tt rbk sk = (s', inl e)
       /\ __call__ (Demo.rank false true Demo.args (Some 4))
            (__init__ Demo.args) Demo.tokens Demo.position_ids tt None
            Demo.start_state = (s', inl e)
       /\ batch_size_offset (inference_context s') = 4.
Proof.
  split; [apply demo_rank_read_only|]. split; [reflexivity|].
  split; [reflexivity|]. split; [lia|].
  eexists. eexists. eexists. eexists.
  split; [vm_compute; reflexivity|]. split; [vm_compute; reflexivity|].
  pose proof (failed_micro_batch_aborts
                (Demo.rank false true Demo.args (Some 4)) (__init__ Demo.args)
                Demo.tokens Demo.position_ids tt None 4 3 1
                Demo.start_state _ _ _ _
                (demo_rank_read_only false true Demo.args (Some 4))
                eq_refl eq_refl ltac:(lia)
                ltac:(vm_compute; reflexivity)
                ltac:(vm_compute; reflexivity)) as (Hcall & _ & Hb & _).
  split; [exact Hcall | exact Hb].
Defined.

(* ================================================================== *)
(** * Further properties of the forward step *)

(* ================================================================== *)
(** ** Slices of the batch *)

Lemma firstn_firstn_skipn {A : Type} (n k : nat) (l : list A) :
  firstn n l ++ firstn k (skipn n l) = firstn (n + k) l.
Proof.
  revert l. induction n as [|n IH]; intros l; [reflexivity|].
  destruct l as [|x l]; simpl.
  - rewrite firstn_nil. reflexivity.
  - rewrite IH. reflexivity.
Qed.

Lemma py_slice_in_range {A : Type} (l : list A) (a b : Z) :
  0 <= a <= b -> b <= Z.of_nat (length l) ->
  py_slice l a b = firstn (Z.to_nat (b - a)) (skipn (Z.to_nat a) l).
Proof.
  intros Hab Hb. unfold py_slice.
  destruct (Z.ltb_spec a 0); [lia|]. destruct (Z.ltb_spec b 0); [lia|].
  rewrite !Z.min_l by lia. reflexivity.
Qed.

Lemma py_slice_length {A : Type} (l : list A) (a b : Z) :
  0 <= a <= b -> b <= Z.of_nat (length l) ->
  Z.of_nat (length (py_slice l a b)) = b - a.
Proof.
  intros Hab Hb. rewrite py_slice_in_range by assumption.
  rewrite length_firstn, length_skipn. lia.
Qed.

Lemma py_slice_app {A : Type} (l : list A) (a b c : Z) :
  0 <= a <= b -> b <= c -> c <= Z.of_nat (length l) ->
  py_slice l a b ++ py_slice l b c = py_slice l a c.
Proof.
  intros Hab Hbc Hc. rewrite !py_slice_in_range by lia.
  replace (Z.to_nat b) with (Z.to_nat (b - a) + Z.to_nat a)%nat by lia.
  rewrite <- skipn_skipn, firstn_firstn_skipn.
  f_equal. lia.
Qed.

Lemma py_slice_all {A : Type} (l : list A) :
  py_slice l 0 (Z.of_nat (length l)) = l.
Proof.
  rewrite py_slice_in_range by lia. simpl.
  rewrite Z.sub_0_r, Nat2Z.id. apply firstn_all.
Qed.

Lemma plan_slices_concat {A : Type} (l : list A) (Mb n : Z) :
  1 <= Mb -> num_micro_batches (Z.of_nat (length l)) Mb = inr n ->
  forall c a, Z.of_nat (a + c) <= n ->
  concat (map (fun r => py_slice l (fst r) (snd r))
              (map (micro_batch_bounds (Z.of_nat (length l)) Mb)
                   (map Z.of_nat (seq a c))))
  = py_slice l (Z.min (Z.of_nat a * Mb) (Z.of_nat (length l)))
               (Z.min (Z.of_nat (a + c) * Mb) (Z.of_nat (length l))).
Proof.
  intros HM Hn. induction c as [|c IH]; intros a Hac.
  - simpl. rewrite Nat.add_0_r, py_slice_in_range by lia.
    rewrite Z.sub_diag. reflexivity.
  - cbn [seq map concat].
    destruct (micro_batch_bounds_min (Z.of_nat (length l)) Mb n (Z.of_nat a)
                HM (Nat2Z.is_nonneg _) Hn ltac:(lia)) as [Hb _].
    rewrite Hb, IH by lia. cbn [fst snd].
    replace (Z.of_nat (S a)) with (Z.of_nat a + 1) by lia.
    replace (Z.of_nat (S a + c)) with (Z.of_nat (a + S c)) by lia.
    apply py_slice_app; nia.
Qed.

(** X1.  The slices the chunked path takes of the batch are the batch: for
    a micro-batch size of at least 1, the rows of tokens[start:end] over the
    ranges of the plan, put one after the other, are the rows of tokens,
    each slice has end - start rows, between 1 and micro_batch_size, and
    the sequence length of tokens. *)
Theorem micro_batch_slices_partition (tokens : IntTensor) (Mb : Z) :
  1 <= Mb ->
  let plan := micro_batch_plan (size0 tokens) Mb in
  concat (map (fun r => rows (slice_rows tokens (fst r) (snd r))) plan)
  = rows tokens
  /\ forall r, In r plan ->
       size0 (slice_rows tokens (fst r) (snd r)) = snd r - fst r
       /\ 1 <= snd r - fst r <= Mb
       /\ size1 (slice_rows tokens (fst r) (snd r)) = size1 tokens.
Proof.
  intros HM plan.
  destruct (num_micro_batches_defined (size0 tokens) Mb HM) as [n Hn].
  destruct (num_micro_batches_least _ _ _ HM (size0_nonneg tokens) Hn)
    as (Hn0 & Hcover & Hleast).
  split.
  - unfold plan, micro_batch_plan. rewrite Hn. unfold py_range, size0 in *.
    change (fun r => rows (slice_rows tokens (fst r) (snd r)))
      with (fun r : Z * Z => py_slice (rows tokens) (fst r) (snd r)).
    rewrite (plan_slices_concat (rows tokens) Mb n HM Hn (Z.to_nat n) 0%nat)
      by lia.
    simpl Nat.add. rewrite Z2Nat.id by lia. simpl Z.of_nat.
    rewrite Z.min_l, Z.min_r by lia. apply py_slice_all.
  - intros r Hr. apply (in_plan _ _ _ _ Hn) in Hr.
    destruct Hr as (k & Hk & ->).
    destruct (micro_batch_bounds_min _ _ _ k HM (size0_nonneg tokens) Hn Hk)
      as [Hb Hlt].
    rewrite Hb. cbn [fst snd]. unfold size0, slice_rows in *. simpl.
    rewrite py_slice_length by lia.
    split; [reflexivity|]. split; [lia | reflexivity].
Qed.

(** A run on ten sequences with micro-batches of four. *)
Lemma micro_batch_slices_partition_witness :
  1 <= 4
  /\ concat (map (fun r => rows (slice_rows Demo.tokens (fst r) (snd r)))
               (micro_batch_plan (size0 Demo.tokens) 4))
     = rows Demo.tokens.
Proof.
  split; [lia|].
  apply (micro_batch_slices_partition Demo.tokens 4). lia.
Defined.

(** X2.  Only the last micro-batch can be short: for a batch of B >= 0
    sequences and a micro-batch size M >= 1, every range of the plan has M
    sequences, except the last one when M does not divide B, which has
    B mod M; a batch that M divides has no short micro-batch. *)
Theorem only_last_micro_batch_short (B Mb : Z) :
  0 <= B -> 1 <= Mb ->
  let plan := micro_batch_plan B Mb in
  forall i r, nth_error plan i = Some r ->
    range_size r =
    if (Z.of_nat i + 1 =? Z.of_nat (length plan)) && (0 <? B mod Mb)
    then B mod Mb else Mb.
Proof.
  intros HB HM plan i r Hi.
  destruct (num_micro_batches_defined B Mb HM) as [n Hn].
  destruct (num_micro_batches_least _ _ _ HM HB Hn) as (Hn0 & Hcover & Hleast).
  destruct (nth_error_plan _ _ _ _ _ Hn Hi) as [Hlt ->].
  unfold plan. rewrite (plan_length _ _ _ Hn Hn0).
  assert (Hnv : n = if 0 <? B mod Mb then B / Mb + 1 else B / Mb).
  { unfold num_micro_batches, py_divmod in Hn.
    destruct (Mb =? 0) eqn:E0; [lia|]. injection Hn as <-. reflexivity. }
  pose proof (Z.div_mod B Mb ltac:(lia)) as Hdm.
  pose proof (Z.mod_pos_bound B Mb ltac:(lia)) as Hr.
  unfold range_size, micro_batch_bounds. cbn [fst snd].
  destruct (Z.eqb_spec (Z.of_nat i + 1) n) as [Hlast|Hnot];
    destruct (Z.ltb_spec 0 (B mod Mb)) as [Hpos|Hzero];
    rewrite ?Hpos in Hnv; cbn [andb].
  - destruct (0 <? B mod Mb) eqn:Ez; [|lia]. nia.
  - destruct (0 <? B mod Mb) eqn:Ez; [apply Z.ltb_lt in Ez; lia|]. nia.
  - specialize (Hleast (Z.of_nat i + 1) ltac:(lia)). lia.
  - specialize (Hleast (Z.of_nat i + 1) ltac:(lia)). lia.
Qed.

(** The plan for ten sequences in micro-batches of four: the third range
    has 10 mod 4 = 2 sequences. *)
Lemma only_last_micro_batch_short_witness :
  0 <= 10 /\ 1 <= 4 /\ range_size (8, 10) = 10 mod 4.
Proof.
  split; [lia|]. split; [lia|].
  apply (only_last_micro_batch_short 10 4 ltac:(lia) ltac:(lia) 2%nat (8, 10)).
  reflexivity.
Defined.

(* ================================================================== *)
(** ** More on the routing decision *)

Lemma route_chunked_inv (self : ForwardStep) (tokens : IntTensor)
  (recv_buffer_seq_length : option Z) (m : Z) :
  route self tokens recv_buffer_seq_length = inr (Chunked m) ->
  let seq_len := override_or recv_buffer_seq_length (size1 tokens) in
  pipeline_size_larger_than_one self = true
  /\ pipelining_batch_x_seqlen self <> -1
  /\ pipelining_batch_x_seqlen self <= size0 tokens * seq_len
  /\ seq_len <> 0
  /\ m = Z.max 1 (pipelining_batch_x_seqlen self / seq_len).
Proof.
  unfold route, py_floordiv. cbv zeta.
  destruct (pipeline_size_larger_than_one self); [|discriminate].
  destruct (Z.eqb_spec (pipelining_batch_x_seqlen self) (-1)); [discriminate|].
  simpl.
  destruct (Z.leb_spec (pipelining_batch_x_seqlen self)
              (size0 tokens
               * override_or recv_buffer_seq_length (size1 tokens)));
    [|discriminate].
  destruct (Z.eqb_spec (override_or recv_buffer_seq_length (size1 tokens)) 0);
    [discriminate|].
  intros Heq. injection Heq as <-. auto.
Qed.

(** X3.  The threshold bounds the footprint of a micro-batch.  On the
    chunked path with a positive seq_len: if the threshold is at least
    seq_len, micro_batch_size is the largest number of sequences whose
    batch x seqlen fits the threshold, and every micro-batch of the plan
    fits it; if the threshold is smaller than seq_len, micro_batch_size is
    1 and the plan is the batch one sequence at a time. *)
Theorem micro_batch_footprint_bounded (self : ForwardStep)
  (tokens : IntTensor) (recv_buffer_seq_length : option Z) (m : Z) :
  let seq_len := override_or recv_buffer_seq_length (size1 tokens) in
  let threshold := pipelining_batch_x_seqlen self in
  route self tokens recv_buffer_seq_length = inr (Chunked m) ->
  0 < seq_len ->
  (seq_len <= threshold ->
   m * seq_len <= threshold < (m + 1) * seq_len
   /\ forall r, In r (micro_batch_plan (size0 tokens) m) ->
                range_size r * seq_len <= threshold)
  /\ (threshold < seq_len ->
      m = 1
      /\ micro_batch_plan (size0 tokens) m =
         map (fun k => (k, k + 1)) (py_range (size0 tokens))).
Proof.
  intros seq_len threshold Er Hpos.
  destruct (route_chunked_inv _ _ _ _ Er) as (_ & _ & _ & _ & Hm).
  fold seq_len threshold in Hm.
  pose proof (Z.div_mod threshold seq_len ltac:(lia)) as Hdm.
  pose proof (Z.mod_pos_bound threshold seq_len Hpos) as Hr.
  split.
  - intros Hge.
    assert (Hq : 1 <= threshold / seq_len).
    { apply Z.div_le_lower_bound; lia. }
    rewrite Z.max_r in Hm by lia.
    assert (Hfit : m * seq_len <= threshold < (m + 1) * seq_len)
      by (subst m; nia).
    split; [exact Hfit|].
    intros r Hr'.
    destruct (num_micro_batches_defined (size0 tokens) m ltac:(lia))
      as [n Hn].
    apply (in_plan _ _ _ _ Hn) in Hr'. destruct Hr' as (k & Hk & ->).
    unfold range_size, micro_batch_bounds. cbn [fst snd]. nia.
  - intros Hlt.
    assert (Hq : threshold / seq_len <= 0).
    { assert (threshold / seq_len < 1); [|lia].
      apply Z.div_lt_upper_bound; lia. }
    rewrite Z.max_l in Hm by lia. subst m. split; [reflexivity|].
    unfold micro_batch_plan, num_micro_batches, py_divmod. simpl.
    rewrite Z.mod_1_r, Z.div_1_r. simpl.
    apply map_ext_in. intros k Hk. apply in_py_range in Hk.
    unfold micro_batch_bounds. f_equal; lia.
Qed.

(** The routing of ten sequences of three tokens with threshold 12: the
    micro-batches of four sequences have footprint 12. *)
Lemma micro_batch_footprint_bounded_witness :
  route (__init__ Demo.args) Demo.tokens None = inr (Chunked 4)
  /\ 0 < override_or None (size1 Demo.tokens)
  /\ override_or None (size1 Demo.tokens)
     <= pipelining_batch_x_seqlen (__init__ Demo.args)
  /\ 4 * 3 <= 12 < (4 + 1) * 3.
Proof.
  split; [reflexivity|]. split; [reflexivity|].
  split; [vm_compute; discriminate|].
  refine (proj1 (proj1 (micro_batch_footprint_bounded (__init__ Demo.args)
                          Demo.tokens None 4 _ _) _)).
  - reflexivity.
  - reflexivity.
  - vm_compute. discriminate.
Defined.

(** X4.  The only exception the routing decision of __call__ raises is the
    ZeroDivisionError of threshold // seq_len, and it raises it exactly
    when the pipeline has more than one stage, the threshold is neither -1
    nor positive, and seq_len is 0; the call then ends before it has
    touched the context, the model or the transport.  With a positive
    threshold, or with -1, the routing never raises. *)
Theorem routing_error_domain
  {World Tensor Mask : Type} (E : Collaborators World Tensor Mask)
  (self : ForwardStep) (tokens position_ids : IntTensor) (mask : Mask)
  (recv_buffer_seq_length : option Z) :
  let seq_len := override_or recv_buffer_seq_length (size1 tokens) in
  let threshold := pipelining_batch_x_seqlen self in
  (forall e, route self tokens recv_buffer_seq_length = inl e <->
             e = ZeroDivisionError
             /\ pipeline_size_larger_than_one self = true
             /\ threshold <> -1 /\ threshold <= 0 /\ seq_len = 0)
  /\ (forall e s, route self tokens recv_buffer_seq_length = inl e ->
        __call__ E self tokens position_ids mask recv_buffer_seq_length s
        = (s, inl e))
  /\ (0 < threshold \/ threshold = -1 ->
      exists rt, route self tokens recv_buffer_seq_length = inr rt).
Proof.
  intros seq_len threshold.
  assert (Hdom : forall e,
             route self tokens recv_buffer_seq_length = inl e <->
             e = ZeroDivisionError
             /\ pipeline_size_larger_than_one self = true
             /\ threshold <> -1 /\ threshold <= 0 /\ seq_len = 0).
  { intros e. unfold route, py_floordiv. fold seq_len threshold.
    destruct (pipeline_size_larger_than_one self);
      destruct (Z.eqb_spec threshold (-1));
      destruct (Z.leb_spec threshold (size0 tokens * seq_len));
      destruct (Z.eqb_spec seq_len 0); simpl;
      (split; [intros Heq | intros (? & ? & ? & ? & ?)]);
      first [ discriminate | lia | congruence
            | injection Heq as <-; repeat split; solve [auto | nia] ]. }
  split; [exact Hdom|]. split.
  - intros e s He. apply call_route_raises. exact He.
  - intros Hthr.
    destruct (route self tokens recv_buffer_seq_length) as [e|rt] eqn:Er;
      [|exists rt; reflexivity].
    destruct (proj1 (Hdom e) eq_refl) as (_ & _ & ? & ? & _). lia.
Qed.

(** The routing of one empty sequence on two stages with threshold 0. *)
Lemma routing_error_domain_witness :
  route (__init__ (mkArgs 2 0 32 8 false float16)) Demo.empty_sequence None
  = inl ZeroDivisionError
  /\ __call__ (Demo.rank false true (mkArgs 2 0 32 8 false float16) None)
       (__init__ (mkArgs 2 0 32 8 false float16))
       Demo.empty_sequence Demo.empty_sequence tt None Demo.start_state
     = (Demo.start_state, inl ZeroDivisionError).
Proof.
  split; [reflexivity|].
  apply (proj1 (proj2 (routing_error_domain
                         (Demo.rank false true
                            (mkArgs 2 0 32 8 false float16) None)
                         (__init__ (mkArgs 2 0 32 8 false float16))
                         Demo.empty_sequence Demo.empty_sequence tt None))).
  reflexivity.
Defined.

(* ================================================================== *)
(** ** What a stage never does *)




Section StageFacts.

Context {World Tensor Mask : Type}.
Variable E : Collaborators World Tensor Mask.
Variable w : Event -> bool.
Hypothesis w_forward : forall t p c, w (EvForward t p c) = false.
Hypothesis w_send : w EvSend = false.


End StageFacts.




Section CopyFacts.

Context {World Tensor Mask : Type}.
Variable E : Collaborators World Tensor Mask.
Variable self : ForwardStep.
Variables tokens position_ids : IntTensor.
Variable mask : Mask.




End CopyFacts.





(* ================================================================== *)
(** ** A forward step, whatever its outcome *)



(* ================================================================== *)
(** ** The unchunked path *)





(** The tensor a model output stands for: itself, or the first element of
    a tuple. *)
Definition first_tensor {Tensor : Type} (out : ModelOutput Tensor)
  : option Tensor :=
  match out with
  | OutTensor t => Some t
  | OutTuple [] => None
  | OutTuple (t :: _) => Some t
  end.

(** X11.  On the first stage of the unchunked path the model runs on the
    world and the context as they are at entry.  A call that returns has
    sent the tensor the model answered, or the first element of the tuple
    it answered, and on a stage that is also the last it returns that
    tensor as the logits.  If the model answers with an empty tuple the
    call raises IndexError right after the model call: nothing is sent and
    sequence_len_offset is not written. *)
Theorem first_stage_unchunked_logits
  {World Tensor Mask : Type} (E : Collaborators World Tensor Mask)
  (self : ForwardStep) (tokens position_ids : IntTensor) (mask : Mask)
  (recv_buffer_seq_length : option Z) (s : State World) :
  is_pipeline_first_stage E = true ->
  route self tokens recv_buffer_seq_length = inr Unchunked ->
  let answer :=
    model E tokens position_ids mask (inference_context s) (world s) in
  (forall s' r,
      __call__ E self tokens position_ids mask recv_buffer_seq_length s
      = (s', inr r) ->
      exists out t,
        snd answer = inr out /\ first_tensor out = Some t
        /\ r = (if is_pipeline_last_stage E then Some (ModelLogits t)
                else None))
  /\ (snd answer = inr (OutTuple []) ->
      __call__ E self tokens position_ids mask recv_buffer_seq_length s
      = (mkState (fst (fst answer)) (snd (fst answer))
                 (trace s ++ [EvForward tokens position_ids
                                (inference_context s)]),
         inl IndexError)).
Proof.
  intros Hfirst Er answer.
  assert (Hrun :
    __call__ E self tokens position_ids mask recv_buffer_seq_length s =
    _no_pipelining_forward_step E self tokens position_ids mask None s).
  { rewrite (call_unchunked E _ _ _ _ _ s Er).
    unfold _allocate_recv_buffer. rewrite Hfirst.
    destruct recv_buffer_seq_length; reflexivity. }
  rewrite Hrun.
  unfold _no_pipelining_forward_step, _forward_step_helper,
    _allocate_recv_buffer, bind, when, _forward, ret, raise, log, effect.
  rewrite Hfirst. simpl. fold answer.
  destruct answer as [[w c'] [e|[t|[|t ts]]]]; simpl; split.
  - intros s' r H. discriminate.
  - intros H. discriminate.
  - intros s' r H.
    destruct (send_to_next_pipeline_rank E t w) as [w' [e|]];
      [discriminate|]. injection H as _ <-.
    exists (OutTensor t), t. auto.
  - intros H. discriminate.
  - intros s' r H. discriminate.
  - intros _. reflexivity.
  - intros s' r H.
    destruct (send_to_next_pipeline_rank E t w) as [w' [e|]];
      [discriminate|]. injection H as _ <-.
    exists (OutTuple (t :: ts)), t. auto.
  - intros H. discriminate.
Qed.

(** A single stage whose model answers with a tuple of two tensors. *)
Lemma first_stage_unchunked_logits_witness :
  is_pipeline_first_stage
    (mkCollaborators nat Z unit
       (fun t _ _ c w => (w, c, inr (OutTuple [size0 t; 0])))
       (fun _ w => w) (fun _ w => (w, None)) (fun _ w => (w, None))
       (fun _ _ _ _ w => (w, None)) true true Demo.args) = true
  /\ route (__init__ (mkArgs 1 12 32 8 false float16)) Demo.tokens None
     = inr Unchunked
  /\ exists s' r,
       __call__
         (mkCollaborators nat Z unit
            (fun t _ _ c w => (w, c, inr (OutTuple [size0 t; 0])))
            (fun _ w => w) (fun _ w => (w, None)) (fun _ w => (w, None))
            (fun _ _ _ _ w => (w, None)) true true Demo.args)
         (__init__ (mkArgs 1 12 32 8 false float16))
         Demo.tokens Demo.position_ids tt None Demo.start_state
       = (s', inr r)
       /\ r = Some (ModelLogits 10).
Proof.
  split; [reflexivity|]. split; [reflexivity|].
  eexists. eexists. split; [vm_compute; reflexivity|].
  destruct (proj1 (first_stage_unchunked_logits
                     (mkCollaborators nat Z unit
                        (fun t _ _ c w => (w, c, inr (OutTuple [size0 t; 0])))
                        (fun _ w => w) (fun _ w => (w, None))
                        (fun _ w => (w, None))
                        (fun _ _ _ _ w => (w, None)) true true Demo.args)
                     (__init__ (mkArgs 1 12 32 8 false float16))
                     Demo.tokens Demo.position_ids tt None Demo.start_state
                     eq_refl eq_refl)
              _ _ ltac:(vm_compute; reflexivity))
    as (out & t & Hout & Ht & Hr).
  vm_compute in Hout. injection Hout as <-.
  vm_compute in Ht. injection Ht as <-.
  exact Hr.
Defined.

(* ================================================================== *)
(** ** More on the chunked path *)








(* ================================================================== *)
(** ** Calls made one after the other *)

(** The arguments of a call. *)
Record CallArgs (Mask : Type) : Type := mkCallArgs {
  call_tokens : IntTensor;
  call_position_ids : IntTensor;
  call_attention_mask : Mask;
  call_recv_buffer_seq_length : option Z
}.
Arguments mkCallArgs {Mask} _ _ _ _.
Arguments call_tokens {Mask} _.
Arguments call_position_ids {Mask} _.
Arguments call_attention_mask {Mask} _.
Arguments call_recv_buffer_seq_length {Mask} _.

(** The same [ForwardStep] called on one input after the other, as a
    generation loop does; the results are kept in order. *)
Fixpoint successive_calls {World Tensor Mask : Type}
  (E : Collaborators World Tensor Mask) (self : ForwardStep)
  (inputs : list (CallArgs Mask)) : M World (list (option (Logits Tensor))) :=
  match inputs with
  | [] => ret []
  | a :: rest =>
      r <- __call__ E self (call_tokens a) (call_position_ids a)
             (call_attention_mask a) (call_recv_buffer_seq_length a) ;;
      rs <- successive_calls E self rest ;;
      ret (r :: rs)
  end.

Section OneCall.

Context {World Tensor Mask : Type}.
Variable E : Collaborators World Tensor Mask.
Hypothesis read_only : offsets_read_only E.
Variable self : ForwardStep.

(** The context a call that returns leaves, from the one it found. *)
Lemma call_returns_context tokens position_ids mask recv_buffer_seq_length
  s s' r :
  __call__ E self tokens position_ids mask recv_buffer_seq_length s
  = (s', inr r) ->
  sequence_len_offset (inference_context s') =
  sequence_len_offset (inference_context s) + size1 tokens
  /\ (batch_size_offset (inference_context s) = 0 ->
      batch_size_offset (inference_context s') = 0).
Proof.
  intros H. destruct read_only as [Kq Kb].
  destruct (route self tokens recv_buffer_seq_length) as [e|[m|]] eqn:Er.
  - rewrite (call_route_raises E _ _ _ _ _ e s Er) in H. discriminate.
  - rewrite (call_chunked E _ _ _ _ _ m s Er) in H.
    apply with_pipelining_returns in H
      as (n & s1 & rb1 & _ & Hloop & Hc & _ & _).
    rewrite Hc. simpl.
    rewrite (loop_keeps_sequence E _ _ _ _ _ _ _ _ Kq _ _ _ Hloop). auto.
  - rewrite (call_unchunked E _ _ _ _ _ s Er) in H.
    pose proof (no_pipelining_keeps_batch E _ _ _ _ _ Kb _ _ _ H) as Hb.
    apply no_pipelining_returns in H as (s1 & out & Hh & Hc & _ & _).
    rewrite Hb. rewrite Hc. simpl.
    rewrite (stable_helper E _ _ _ _ _ _ Kq _ _ _ Hh). auto.
Qed.

End OneCall.

(** X14.  Calls compose.  When a ForwardStep is called on a list of inputs
    one after the other, with a model that treats the offsets as read-only,
    and every call returns, sequence_len_offset has grown by the sum of the
    tokens.size(1) of the inputs, whatever mix of chunked and unchunked
    calls was made; batch_size_offset, if it was 0 before the first call,
    is 0 after the last; and there is one result per input. *)
Theorem successive_calls_offsets
  {World Tensor Mask : Type} (E : Collaborators World Tensor Mask)
  (self : ForwardStep) (inputs : list (CallArgs Mask))
  (s s' : State World) (rs : list (option (Logits Tensor))) :
  offsets_read_only E ->
  successive_calls E self inputs s = (s', inr rs) ->
  sequence_len_offset (inference_context s') =
  sequence_len_offset (inference_context s)
  + fold_right Z.add 0 (map (fun a => size1 (call_tokens a)) inputs)
  /\ (batch_size_offset (inference_context s) = 0 ->
      batch_size_offset (inference_context s') = 0)
  /\ length rs = length inputs.
Proof.
  intros Hro. revert s s' rs.
  induction inputs as [|a rest IH]; intros s s' rs H; simpl in H.
  - injection H as <- <-. simpl. rewrite Z.add_0_r. auto.
  - apply bind_inr in H as (s1 & r & H1 & H).
    apply bind_inr in H as (s2 & rs' & H2 & H).
    injection H as <- <-.
    destruct (call_returns_context E Hro _ _ _ _ _ _ _ _ H1) as [Q1 B1].
    destruct (IH _ _ _ H2) as (Q2 & B2 & L2).
    split; [|split].
    + rewrite Q2, Q1. simpl. lia.
    + intros Hb. apply B2, B1, Hb.
    + simpl. rewrite L2. reflexivity.
Qed.

(** A prompt of ten sequences of three tokens run in micro-batches, then
    the same ten sequences one token further, below the threshold. *)
Lemma successive_calls_offsets_witness :
  offsets_read_only (Demo.rank false true Demo.args None)
  /\ exists s' rs,
       successive_calls (Demo.rank false true Demo.args None)
         (__init__ Demo.args)
         [mkCallArgs Demo.tokens Demo.position_ids tt None;
          mkCallArgs (mkIntTensor (map (fun i => [i]) (py_range 10)) 1)
            (mkIntTensor (map (fun _ => [3]) (py_range 10)) 1) tt None]
         Demo.start_state = (s', inr rs)
       /\ sequence_len_offset (inference_context s') = 0 + (3 + (1 + 0)).
Proof.
  split; [apply demo_rank_read_only|].
  eexists. eexists. split; [vm_compute; reflexivity|].
  refine (proj1 (successive_calls_offsets
                   (Demo.rank false true Demo.args None) (__init__ Demo.args)
                   [mkCallArgs Demo.tokens Demo.position_ids tt None;
                    mkCallArgs
                      (mkIntTensor (map (fun i => [i]) (py_range 10)) 1)
                      (mkIntTensor (map (fun _ => [3]) (py_range 10)) 1)
                      tt None]
                   Demo.start_state _ _ _ _)).
  - apply demo_rank_read_only.
  - vm_compute. reflexivity.
Defined.

(* ================================================================== *)
(** ** The deprecated name of the context *)






(* ================================================================== *)
(** ** What the model is run on *)





Section ModelInputs.

Context {World Tensor Mask : Type}.
Variable E : Collaborators World Tensor Mask.
Variable self : ForwardStep.
Variables tokens position_ids : IntTensor.
Variable mask : Mask.



End ModelInputs.



(* ================================================================== *)
(** ** The micro-batch size the chunked path relies on *)


